(** * Photon random walk: the simulation core of Index.tsx and PhotonSimulation.tsx

    A shallow embedding of the photon motion, trail retirement and colour
    mapping code.  JavaScript numbers are IEEE binary64 values, modelled by
    Rocq's primitive floats, so every arithmetic step below rounds exactly as
    the source does.  Particle ids and clock readings are integers ([Z]).

    The repository holds two revisions of the simulation component:
    - [Immediate]: one [THREE.Line] per path segment, colour and opacity per
      segment, decimation literal 0.05;
    - [Buffered]: one persistent vertex-colour buffer per path, the fade
      multiplied into the colour, decimation constant DISTANCE_THRESHOLD. *)

From Stdlib Require Import List Sorted ZArith Bool Lia.
From Stdlib Require Import Floats.
Import ListNotations.

Set Warnings "-inexact-float".

(** ** JavaScript numbers *)

Module JS.
Local Open Scope float_scope.

Definition number := float.

(** [x < y], [x <= y], [x > y], [x >= y]: all false when an operand is NaN. *)
Definition lt (x y : number) : bool := x <? y.
Definition le (x y : number) : bool := x <=? y.
Definition gt (x y : number) : bool := y <? x.
Definition ge (x y : number) : bool := y <=? x.

(** ToBoolean on a number: false for +0, -0 and NaN. *)
Definition truthy (x : number) : bool := negb (is_nan x || is_zero x).

(** [a || b] on numbers. *)
Definition or_else (a b : number) : number := if truthy a then a else b.

(** [Math.max(a, b)]: NaN when an operand is NaN, and +0 is larger than -0. *)
Definition Math_max (a b : number) : number :=
  if is_nan a || is_nan b then nan
  else if a <? b then b
  else if b <? a then a
  else if is_zero a && get_sign a then b
  else a.

(** [Math.min(a, b)]: NaN when an operand is NaN, and -0 is smaller than +0. *)
Definition Math_min (a b : number) : number :=
  if is_nan a || is_nan b then nan
  else if a <? b then a
  else if b <? a then b
  else if is_zero a && get_sign a then a
  else b.

(** [Math.PI], the binary64 value nearest to pi. *)
Definition Math_PI : number := 0x1.921fb54442d18p+1.
End JS.

(** ** THREE.Vector3

    The methods of three.js that the simulation calls.  The source mutates
    the receiver and returns it; here each method returns the new value, and
    [clone] is the identity on values. *)

Module Vector3.
Local Open Scope float_scope.

Record t := mk { x : float; y : float; z : float }.

Definition clone (v : t) : t := v.

Definition add (v w : t) : t := mk (x v + x w) (y v + y w) (z v + z w).

Definition multiplyScalar (v : t) (s : float) : t :=
  mk (x v * s) (y v * s) (z v * s).

Definition divideScalar (v : t) (s : float) : t := multiplyScalar v (1 / s).

Definition length (v : t) : float :=
  sqrt (x v * x v + y v * y v + z v * z v).

(** [normalize() { return this.divideScalar(this.length() || 1) }] *)
Definition normalize (v : t) : t := divideScalar v (JS.or_else (length v) 1).

Definition distanceToSquared (v w : t) : float :=
  let dx := x v - x w in
  let dy := y v - y w in
  let dz := z v - z w in
  dx * dx + dy * dy + dz * dz.

Definition distanceTo (v w : t) : float := sqrt (distanceToSquared v w).

Definition origin : t := mk 0 0 0.
End Vector3.

(** ** THREE.Color

    [new THREE.Color(hex)] splits the 24-bit value into three channels in
    [0, 1]; [lerpColors] and [multiplyScalar] work channel by channel. *)

Module Color.
Local Open Scope float_scope.

Record t := mk { r : float; g : float; b : float }.

Definition channel (byte : Z) : float := of_uint63 (Uint63.of_Z byte) / 255.

Definition ofHex (hex : Z) : t :=
  mk (channel (Z.land (Z.shiftr hex 16) 255))
     (channel (Z.land (Z.shiftr hex 8) 255))
     (channel (Z.land hex 255)).

Definition lerpColors (c1 c2 : t) (alpha : float) : t :=
  mk (r c1 + (r c2 - r c1) * alpha)
     (g c1 + (g c2 - g c1) * alpha)
     (b c1 + (b c2 - b c1) * alpha).

Definition multiplyScalar (c : t) (s : float) : t :=
  mk (r c * s) (g c * s) (b c * s).
End Color.

(** ** Math.random

    The generator is an endless stream of draws and a cursor; a call returns
    the draw under the cursor and moves the cursor on. *)

Record Random := mkRandom { draws : nat -> float; drawn : nat }.

Definition Math_random (g : Random) : float * Random :=
  (draws g (drawn g), mkRandom (draws g) (S (drawn g))).

(** The stream that repeats the draws of [l], then yields [d] for ever. *)
Definition randomOf (l : list float) (d : float) : Random :=
  mkRandom (fun n => nth n l d) 0.

(** ** The records of Index.tsx and PhotonSimulation.tsx *)

Record Settings := mkSettings {
  rotationSpeed : float;
  sphereTransparency : float;
  photonSpeed : float;
  stepDistance : float;
  photonSize : float
}.

Module PhotonData.
Record t := mk {
  id : Z;
  position : Vector3.t;
  velocity : Vector3.t;
  path : list Vector3.t;
  isOutside : bool;
  distanceFromCenter : float
}.
End PhotonData.

Module PhotonTrail.
Record t := mk { id : Z; path : list Vector3.t }.
End PhotonTrail.

Definition DEFAULT_SETTINGS : Settings :=
  mkSettings 0.3%float 0.4%float 1.0%float 0.625%float 3%float.

(** ** Index.tsx: the particle factory and the page state *)

Definition MAX_PHOTONS : nat := 8.

(** [(Math.random() - 0.5) * 0.1], three times: the small start velocity. *)
Definition smallVelocity (g : Random) : Vector3.t * Random :=
  let '(u1, g) := Math_random g in
  let '(u2, g) := Math_random g in
  let '(u3, g) := Math_random g in
  (Vector3.mk ((u1 - 0.5) * 0.1) ((u2 - 0.5) * 0.1) ((u3 - 0.5) * 0.1), g)%float.

(** [createPhoton()]: reads and then increments the module counter
    [photonIdCounter], which is threaded here as the first argument. *)
Definition createPhoton (photonIdCounter : Z) (g : Random)
  : PhotonData.t * Z * Random :=
  let startPos := Vector3.origin in
  let '(velocity, g) := smallVelocity g in
  let secondPos :=
    Vector3.add (Vector3.clone startPos)
      (Vector3.multiplyScalar (Vector3.clone velocity) 0.01%float) in
  (PhotonData.mk photonIdCounter
     (Vector3.clone startPos)
     velocity
     [Vector3.clone startPos; secondPos]
     false
     0%float,
   (photonIdCounter + 1)%Z, g).

(** The state of the page: the two [useState] cells that the simulation
    reads and writes, and the module-level id counter. *)
Record AppState := mkApp {
  photons : list PhotonData.t;
  trails : list PhotonTrail.t;
  photonIdCounter : Z
}.

(** First render: [useState([createPhoton()])], [useState([])], counter 0. *)
Definition initialState (g : Random) : AppState :=
  let '(p, c, _) := createPhoton 0 g in mkApp [p] [] c.

(** Every later render of [Index] evaluates the initial-value expression
    [createPhoton()] again and drops the result: only the counter moves. *)
Definition render (s : AppState) (g : Random) : AppState :=
  let '(_, c, _) := createPhoton (photonIdCounter s) g in
  mkApp (photons s) (trails s) c.

Definition handleReset (s : AppState) (g : Random) : AppState :=
  let '(p, c, _) := createPhoton (photonIdCounter s) g in
  mkApp [p] [] c.

Definition handleAddPhoton (s : AppState) (g : Random) : AppState :=
  if (length (photons s) <? MAX_PHOTONS)%nat then
    let '(p, c, _) := createPhoton (photonIdCounter s) g in
    mkApp (photons s ++ [p]) (trails s) c
  else s.

(** [handlePhotonsUpdate(updatedPhotons, completedTrails?)] *)
Definition handlePhotonsUpdate (s : AppState)
    (updatedPhotons : list PhotonData.t)
    (completedTrails : option (list PhotonTrail.t)) : AppState :=
  mkApp updatedPhotons
    match completedTrails with
    | Some ts => trails s ++ ts
    | None => trails s
    end
    (photonIdCounter s).

(** ** PhotonSimulation.tsx: constants *)

Definition SPHERE_RADIUS : float := 3.5.
Definition MAX_DISTANCE : float := 25.
Definition MAX_TRAIL_SEGMENTS : nat := 2000.
Definition DISTANCE_THRESHOLD : float := 0.1.

(** ** The per-frame update of one photon ([Photon], [useFrame]) *)

Section Frame.
(** [Math.sin] and [Math.cos] are left to the host. *)
Variables Math_sin Math_cos : float -> float.

(** The decimation threshold of the revision at hand. *)
Variable threshold : float.

Local Open Scope float_scope.

(** "Force initial path update if path is too short". *)
Definition seedPath (photon : PhotonData.t) : list Vector3.t :=
  if (length (PhotonData.path photon) <? 2)%nat
  then PhotonData.path photon ++ [Vector3.clone (PhotonData.position photon)]
  else PhotonData.path photon.

(** A fresh direction from two draws, of length [stepDistance]. *)
Definition randomDirection (settings : Settings) (g : Random)
  : Vector3.t * Random :=
  let '(u1, g) := Math_random g in
  let theta := u1 * JS.Math_PI * 2 in
  let '(u2, g) := Math_random g in
  let phi := u2 * JS.Math_PI in
  (Vector3.multiplyScalar
     (Vector3.mk (Math_sin phi * Math_cos theta)
                 (Math_sin phi * Math_sin theta)
                 (Math_cos phi))
     (stepDistance settings), g).

(** What one branch of the walk leaves in the new photon. *)
Record Motion := mkMotion {
  m_position : Vector3.t;
  m_velocity : Vector3.t;
  m_isOutside : bool;
  m_distance : float
}.

(** [if (!newPhoton.isOutside) { ... }]: random walk inside the sphere. *)
Definition walkInside (settings : Settings) (speed : float)
    (photon : PhotonData.t) (g : Random) : Motion * Random :=
  let '(coin, g) := Math_random g in
  let '(velocity, g) :=
    if JS.lt coin 0.3 then randomDirection settings g
    else (PhotonData.velocity photon, g) in
  let position :=
    Vector3.add (PhotonData.position photon)
      (Vector3.multiplyScalar (Vector3.clone velocity) speed) in
  let distanceFromCenter := Vector3.length position in
  if JS.ge distanceFromCenter SPHERE_RADIUS then
    let position :=
      Vector3.multiplyScalar (Vector3.normalize position) SPHERE_RADIUS in
    let velocity :=
      Vector3.multiplyScalar
        (Vector3.normalize (Vector3.clone position)) 0.5 in
    (mkMotion position velocity true distanceFromCenter, g)
  else (mkMotion position velocity false distanceFromCenter, g).

(** [else { ... }]: straight line outside the sphere. *)
Definition flyOutside (speed : float) (photon : PhotonData.t) : Motion :=
  let position :=
    Vector3.add (PhotonData.position photon)
      (Vector3.multiplyScalar
         (Vector3.clone (PhotonData.velocity photon)) (speed * 3)) in
  mkMotion position (PhotonData.velocity photon) true
    (Vector3.length position).

(** [path[path.length - 1]] *)
Definition lastPoint (path : list Vector3.t) : option Vector3.t :=
  nth_error path (length path - 1).

(** "Add to path": the test of the final [if]. *)
Definition farEnough (path : list Vector3.t) (position : Vector3.t) : bool :=
  (length path =? 0)%nat ||
  match lastPoint path with
  | Some q => JS.gt (Vector3.distanceTo q position) threshold
  | None => false
  end.

Definition recordPath (path : list Vector3.t) (position : Vector3.t)
  : list Vector3.t :=
  if farEnough path position then path ++ [Vector3.clone position] else path.

(** The callback of [useFrame]: [None] when nothing is reported
    ([isPaused]), otherwise the photon handed to [onUpdate]. *)
Definition frame (settings : Settings) (isPaused : bool) (delta : float)
    (photon : PhotonData.t) (g : Random) : option PhotonData.t * Random :=
  if isPaused then (None, g)
  else
    let speed := photonSpeed settings * delta * 2 in
    let path := seedPath photon in
    let '(m, g) :=
      if negb (PhotonData.isOutside photon)
      then walkInside settings speed photon g
      else (flyOutside speed photon, g) in
    (Some (PhotonData.mk (PhotonData.id photon)
             (m_position m) (m_velocity m)
             (recordPath path (m_position m))
             (m_isOutside m) (m_distance m)), g).
End Frame.

(** ** Scene: committing a frame, retiring escaped photons *)

(** [handlePhotonUpdate]: [photons.map(p => p.id === updatedPhoton.id ?
    updatedPhoton : p)], handed to [onPhotonsUpdate] without trails. *)
Definition handlePhotonUpdate (photons : list PhotonData.t)
    (updatedPhoton : PhotonData.t) : list PhotonData.t :=
  map (fun p =>
         if (PhotonData.id p =? PhotonData.id updatedPhoton)%Z
         then updatedPhoton else p)
      photons.

Definition activePhotons (photons : list PhotonData.t) : list PhotonData.t :=
  filter (fun p => JS.lt (PhotonData.distanceFromCenter p) MAX_DISTANCE) photons.

Definition removedPhotons (photons : list PhotonData.t) : list PhotonData.t :=
  filter (fun p => JS.ge (PhotonData.distanceFromCenter p) MAX_DISTANCE) photons.

(** The body of [removedPhotons.map(p => ...)]: the trail of a removed photon. *)
Definition toTrail (p : PhotonData.t) : PhotonTrail.t :=
  let trailPath := PhotonData.path p in
  let trailPath :=
    if (length trailPath <? 2)%nat && (0 <? length trailPath)%nat then
      match trailPath with
      | first :: _ => trailPath ++ [Vector3.clone first]
      | [] => trailPath
      end
    else if (length trailPath =? 0)%nat then
      [Vector3.clone (PhotonData.position p);
       Vector3.clone (PhotonData.position p)]
    else trailPath in
  PhotonTrail.mk (PhotonData.id p) trailPath.

(** The three ways the retirement effect can end. *)
Inductive ReapResult :=
| Respawn (newPhoton : PhotonData.t) (newTrails : list PhotonTrail.t)
| Retire (active : list PhotonData.t) (newTrails : list PhotonTrail.t)
| Unchanged.

Section Reap.
(** The object literal of the replacement photon differs between the two
    revisions; it reads the clock ([Date.now()]) and the generator. *)
Variable spawn : Z -> Random -> PhotonData.t.

(** The [useEffect] that removes photons that are too far away. *)
Definition reap (photons : list PhotonData.t) (now : Z) (g : Random)
  : ReapResult :=
  let active := activePhotons photons in
  let removed := removedPhotons photons in
  let newTrails := map toTrail removed in
  if (length active <? length photons)%nat && (length active =? 0)%nat then
    Respawn (spawn now g) newTrails
  else if negb (length active =? length photons)%nat then
    Retire active newTrails
  else Unchanged.

(** The effect's call of [onPhotonsUpdate], applied to the page state. *)
Definition reapEffect (s : AppState) (now : Z) (g : Random) : AppState :=
  match reap (photons s) now g with
  | Respawn newPhoton newTrails =>
      handlePhotonsUpdate s [newPhoton] (Some newTrails)
  | Retire active newTrails =>
      handlePhotonsUpdate s active (Some newTrails)
  | Unchanged => s
  end.
End Reap.

(** ** Path segments and their colours *)

Definition PHOTON_START : Z := 0x370307.
Definition PHOTON_END : Z := 0xc85e0a.

(** The pairs [(path[i], path[i + 1])] for [i] from 0 to [length - 2]. *)
Fixpoint segments (pts : list Vector3.t) : list (Vector3.t * Vector3.t) :=
  match pts with
  | start :: rest =>
      match rest with
      | finish :: _ => (start, finish) :: segments rest
      | [] => []
      end
  | [] => []
  end.

Module Immediate.
Section Host.
Variables Math_sin Math_cos Math_exp : float -> float.
Local Open Scope float_scope.

(** [... .distanceTo(newPhoton.position) > 0.05] *)
Definition useFrame := frame Math_sin Math_cos 0.05.

(** The replacement photon: a path of one point. *)
Definition spawn (now : Z) (g : Random) : PhotonData.t :=
  let id := now in
  let '(velocity, _) := smallVelocity g in
  PhotonData.mk id Vector3.origin velocity [Vector3.origin] false 0.

(** The colour and opacity of the segment starting at [start], as the
    loop of [Photon]'s [pathLines] computes them. *)
Definition Photon_segmentStyle (start : Vector3.t) : Color.t * float :=
  let distanceFromCenter := Vector3.length start in
  if JS.le distanceFromCenter SPHERE_RADIUS then
    let t := distanceFromCenter / SPHERE_RADIUS in
    (Color.lerpColors (Color.ofHex PHOTON_START) (Color.ofHex PHOTON_END) t,
     1.0)
  else
    let fadeDistance :=
      JS.Math_max 0 ((distanceFromCenter - SPHERE_RADIUS) / 10) in
    (Color.ofHex PHOTON_END, JS.Math_max 0.1 (Math_exp (- fadeDistance))).

(** The same computation in the loop of [TrailRenderer]. *)
Definition TrailRenderer_segmentStyle (start : Vector3.t)
  : Color.t * float :=
  let distanceFromCenter := Vector3.length start in
  if JS.le distanceFromCenter SPHERE_RADIUS then
    let t := distanceFromCenter / SPHERE_RADIUS in
    (Color.lerpColors (Color.ofHex PHOTON_START) (Color.ofHex PHOTON_END) t,
     1.0)
  else
    let fadeDistance :=
      JS.Math_max 0 ((distanceFromCenter - SPHERE_RADIUS) / 10) in
    (Color.ofHex PHOTON_END, JS.Math_max 0.1 (Math_exp (- fadeDistance))).

(** One line per segment: its two ends, colour and opacity. *)
Definition Photon_pathLines (path : list Vector3.t)
  : list (Vector3.t * Vector3.t * (Color.t * float)) :=
  if (length path <? 2)%nat then []
  else map (fun se => (fst se, snd se, Photon_segmentStyle (fst se)))
           (segments path).

Definition TrailRenderer_pathLines (path : list Vector3.t)
  : list (Vector3.t * Vector3.t * (Color.t * float)) :=
  let processedPath :=
    if (length path <? 2)%nat && (0 <? length path)%nat then
      match path with
      | first :: _ => path ++ [Vector3.clone first]
      | [] => path
      end
    else path in
  if (length processedPath <? 2)%nat then []
  else map (fun se => (fst se, snd se, TrailRenderer_segmentStyle (fst se)))
           (segments processedPath).
End Host.
End Immediate.

Module Buffered.
Section Host.
Variables Math_sin Math_cos Math_exp : float -> float.
Local Open Scope float_scope.

(** [... .distanceTo(newPhoton.position) > DISTANCE_THRESHOLD] *)
Definition useFrame := frame Math_sin Math_cos DISTANCE_THRESHOLD.

(** The replacement photon: a path of two points. *)
Definition spawn (now : Z) (g : Random) : PhotonData.t :=
  let start := Vector3.origin in
  let '(vel, _) := smallVelocity g in
  let second :=
    Vector3.add (Vector3.clone start)
      (Vector3.multiplyScalar (Vector3.clone vel) 0.01) in
  PhotonData.mk now Vector3.origin vel [start; second] false 0.

Definition ensureTwoPoints (arr : list Vector3.t) : list Vector3.t :=
  if (2 <=? length arr)%nat then arr
  else match arr with
       | [only] => [only; Vector3.clone only]
       | _ => [Vector3.origin; Vector3.origin]
       end.

(** The vertex colour of the segment starting at [start], as the effect
    of [Photon] writes it: the fade is multiplied into the colour. *)
Definition Photon_segmentColor (start : Vector3.t) : Color.t :=
  let distanceFromCenter := Vector3.length start in
  if JS.le distanceFromCenter SPHERE_RADIUS then
    let t := distanceFromCenter / SPHERE_RADIUS in
    Color.lerpColors (Color.ofHex PHOTON_START) (Color.ofHex PHOTON_END) t
  else
    let fadeDistance :=
      JS.Math_max 0 ((distanceFromCenter - SPHERE_RADIUS) / 10) in
    let fade := JS.Math_max 0.1 (Math_exp (- fadeDistance)) in
    Color.multiplyScalar (Color.ofHex PHOTON_END) fade.

(** The same computation in the effect of [TrailRenderer]. *)
Definition TrailRenderer_segmentColor (start : Vector3.t) : Color.t :=
  let distanceFromCenter := Vector3.length start in
  if JS.le distanceFromCenter SPHERE_RADIUS then
    let t := distanceFromCenter / SPHERE_RADIUS in
    Color.lerpColors (Color.ofHex PHOTON_START) (Color.ofHex PHOTON_END) t
  else
    let fadeDistance :=
      JS.Math_max 0 ((distanceFromCenter - SPHERE_RADIUS) / 10) in
    let fade := JS.Math_max 0.1 (Math_exp (- fadeDistance)) in
    Color.multiplyScalar (Color.ofHex PHOTON_END) fade.

(** What the loop writes for the first [segmentCount] segments: the two
    ends into the position buffer, the colour (twice) into the colour
    buffer. *)
Definition Photon_buffer (path : list Vector3.t)
  : list (Vector3.t * Vector3.t * Color.t) :=
  let pts := ensureTwoPoints path in
  let segmentCount := Nat.min (length pts - 1) MAX_TRAIL_SEGMENTS in
  map (fun se => (fst se, snd se, Photon_segmentColor (fst se)))
      (firstn segmentCount (segments pts)).

Definition TrailRenderer_buffer (path : list Vector3.t)
  : list (Vector3.t * Vector3.t * Color.t) :=
  let tpts := ensureTwoPoints path in
  let segmentCount := Nat.min (length tpts - 1) MAX_TRAIL_SEGMENTS in
  map (fun se => (fst se, snd se, TrailRenderer_segmentColor (fst se)))
      (firstn segmentCount (segments tpts)).
End Host.
End Buffered.

(** ** Sessions: the page as a state machine

    One event per callback that touches the page state.  Each event carries
    what the callback reads from outside: the generator, the clock, the
    frame's [delta] and the settings in force. *)

Inductive Event :=
| Render (g : Random)
| Reset (g : Random)
| AddPhoton (g : Random)
| Frame (i : nat) (settings : Settings) (isPaused : bool) (delta : float)
        (g : Random)
| Reap (now : Z) (g : Random).

(** Who constructed a particle: [createPhoton] or the retirement effect. *)
Inductive Origin := ByCreatePhoton | ByRespawn.

Section Session.
Variables Math_sin Math_cos : float -> float.
Variable threshold : float.
Variable spawn : Z -> Random -> PhotonData.t.

(** The [useFrame] callback of the [i]-th [Photon], then
    [handlePhotonUpdate] and [handlePhotonsUpdate]. *)
Definition photonFrame (s : AppState) (i : nat) (settings : Settings)
    (isPaused : bool) (delta : float) (g : Random) : AppState :=
  match nth_error (photons s) i with
  | Some photon =>
      match fst (frame Math_sin Math_cos threshold settings isPaused delta
                   photon g) with
      | Some newPhoton =>
          handlePhotonsUpdate s (handlePhotonUpdate (photons s) newPhoton)
            None
      | None => s
      end
  | None => s
  end.

Definition dispatch (s : AppState) (ev : Event) : AppState :=
  match ev with
  | Render g => render s g
  | Reset g => handleReset s g
  | AddPhoton g => handleAddPhoton s g
  | Frame i settings isPaused delta g =>
      photonFrame s i settings isPaused delta g
  | Reap now g => reapEffect spawn s now g
  end.

Fixpoint run (s : AppState) (evs : list Event) : AppState :=
  match evs with
  | [] => s
  | ev :: evs => run (dispatch s ev) evs
  end.

(** The particles an event constructs, with their constructor. *)
Definition births (s : AppState) (ev : Event)
  : list (Origin * PhotonData.t) :=
  match ev with
  | Render g | Reset g =>
      [(ByCreatePhoton, fst (fst (createPhoton (photonIdCounter s) g)))]
  | AddPhoton g =>
      if (length (photons s) <? MAX_PHOTONS)%nat
      then [(ByCreatePhoton, fst (fst (createPhoton (photonIdCounter s) g)))]
      else []
  | Frame _ _ _ _ _ => []
  | Reap now g =>
      match reap spawn (photons s) now g with
      | Respawn newPhoton _ => [(ByRespawn, newPhoton)]
      | _ => []
      end
  end.

Fixpoint born (s : AppState) (evs : list Event)
  : list (Origin * PhotonData.t) :=
  match evs with
  | [] => []
  | ev :: evs => births s ev ++ born (dispatch s ev) evs
  end.

(** A session: the page loads, then the events happen in order. *)
Definition session (g0 : Random) (evs : list Event) : AppState :=
  run (initialState g0) evs.

Definition sessionBirths (g0 : Random) (evs : list Event)
  : list (Origin * PhotonData.t) :=
  (ByCreatePhoton, fst (fst (createPhoton 0 g0)))
    :: born (initialState g0) evs.

Definition reachable (s : AppState) : Prop :=
  exists g0 evs, s = session g0 evs.
End Session.

(** The ids of the particles that [createPhoton] made, in creation order. *)
Definition counterIds (log : list (Origin * PhotonData.t)) : list Z :=
  map (fun b => PhotonData.id (snd b))
      (filter (fun b => match fst b with
                        | ByCreatePhoton => true
                        | ByRespawn => false
                        end) log).

Definition allIds (log : list (Origin * PhotonData.t)) : list Z :=
  map (fun b => PhotonData.id (snd b)) log.

(** ** The life of one particle *)

(** What one tick reads: settings, the pause flag, [delta], the generator. *)
Record Tick := mkTick {
  tick_settings : Settings;
  tick_isPaused : bool;
  tick_delta : float;
  tick_random : Random
}.

Section Life.
Variables Math_sin Math_cos : float -> float.
Variable threshold : float.

(** The photon after one tick: the one reported to [onUpdate], or the
    old one when the callback returns early. *)
Definition tick (photon : PhotonData.t) (t : Tick) : PhotonData.t :=
  match fst (frame Math_sin Math_cos threshold (tick_settings t)
               (tick_isPaused t) (tick_delta t) photon (tick_random t)) with
  | Some newPhoton => newPhoton
  | None => photon
  end.

Definition life (photon : PhotonData.t) (ticks : list Tick) : PhotonData.t :=
  fold_left tick ticks photon.
End Life.

(** A particle as every constructor leaves it. *)
Definition freshlySpawned (p : PhotonData.t) : Prop :=
  PhotonData.isOutside p = false /\
  PhotonData.position p = Vector3.origin /\
  PhotonData.distanceFromCenter p = 0%float /\
  hd_error (PhotonData.path p) = Some Vector3.origin.

(** The trails a retirement hands to [onPhotonsUpdate]. *)
Definition reapTrails (r : ReapResult) : list PhotonTrail.t :=
  match r with
  | Respawn _ newTrails | Retire _ newTrails => newTrails
  | Unchanged => []
  end.

(** ** The [Photon] component where one line is drawn per segment

    [const newPhoton = { ...photon }] copies the reference held in
    [photon.path], and the frame callback pushes into that array in place: a
    photon object and every later copy of it share one path array.  Arrays
    live in a store and are named by their address. *)

Definition Arrays := nat -> list Vector3.t.

Definition store (arrays : Arrays) (address : nat)
    (content : list Vector3.t) : Arrays :=
  fun a => if (a =? address)%nat then content else arrays a.

(** A photon object: the fields of [PhotonData], [path] a reference. *)
Record PhotonObject := mkObject {
  o_id : Z;
  o_position : Vector3.t;
  o_velocity : Vector3.t;
  o_path : nat;
  o_isOutside : bool;
  o_distanceFromCenter : float
}.

(** The photon that a reader of the object sees. *)
Definition deref (arrays : Arrays) (o : PhotonObject) : PhotonData.t :=
  PhotonData.mk (o_id o) (o_position o) (o_velocity o) (arrays (o_path o))
    (o_isOutside o) (o_distanceFromCenter o).

(** [{ ...photon }] with the fields the callback assigns: every field but
    [path] is taken from the outcome, [path] is the old reference. *)
Definition spread (photon : PhotonObject) (outcome : PhotonData.t)
  : PhotonObject :=
  mkObject (PhotonData.id outcome) (PhotonData.position outcome)
    (PhotonData.velocity outcome) (o_path photon)
    (PhotonData.isOutside outcome) (PhotonData.distanceFromCenter outcome).

Definition Line : Type := Vector3.t * Vector3.t * (Color.t * float).

(** The cell of [useMemo(..., [photon.path, photon.id])]: the dependencies
    of the render that filled it, and the lines. *)
Record Memo := mkMemo {
  memo_path : nat;
  memo_id : Z;
  memo_lines : list Line
}.

(** A mounted [Photon]: the store, the prop [photon], the memo cell. *)
Record Mounted := mkMounted {
  c_arrays : Arrays;
  c_photon : PhotonObject;
  c_memo : Memo
}.

Inductive ComponentStep :=
| FrameStep (t : Tick)
| RenderStep.

Section PhotonComponent.
Variables Math_sin Math_cos Math_exp : float -> float.

(** The callback of [useMemo], on the array as it is when it runs. *)
Definition computePathLines (arrays : Arrays) (photon : PhotonObject)
  : Memo :=
  mkMemo (o_path photon) (o_id photon)
    (Immediate.Photon_pathLines Math_exp (arrays (o_path photon))).

(** [useMemo]: the callback runs on the first render and whenever a
    dependency differs ([Object.is]) from the stored one. *)
Definition useMemo (arrays : Arrays) (cell : option Memo)
    (photon : PhotonObject) : Memo :=
  match cell with
  | Some memo =>
      if (memo_path memo =? o_path photon)%nat
         && (memo_id memo =? o_id photon)%Z
      then memo
      else computePathLines arrays photon
  | None => computePathLines arrays photon
  end.

Definition mountPhoton (arrays : Arrays) (photon : PhotonObject) : Mounted :=
  mkMounted arrays photon (useMemo arrays None photon).

(** A frame: the callback pushes into the path array and hands the new
    object to [onUpdate], which comes back as the prop.  A render: the
    component function runs again with the prop at hand. *)
Definition componentStep (c : Mounted) (st : ComponentStep) : Mounted :=
  match st with
  | FrameStep t =>
      match fst (Immediate.useFrame Math_sin Math_cos (tick_settings t)
                   (tick_isPaused t) (tick_delta t)
                   (deref (c_arrays c) (c_photon c)) (tick_random t)) with
      | Some newPhoton =>
          mkMounted
            (store (c_arrays c) (o_path (c_photon c))
               (PhotonData.path newPhoton))
            (spread (c_photon c) newPhoton)
            (c_memo c)
      | None => c
      end
  | RenderStep =>
      mkMounted (c_arrays c) (c_photon c)
        (useMemo (c_arrays c) (Some (c_memo c)) (c_photon c))
  end.

Definition componentRun (c : Mounted) (steps : list ComponentStep)
  : Mounted :=
  fold_left componentStep steps c.
End PhotonComponent.

(** What a mounted [Photon] keeps through frames and renders. *)
Definition keepsMemo (arrays : Arrays) (photon : PhotonObject)
    (memo : Memo) (c : Mounted) : Prop :=
  c_memo c = memo /\
  o_path (c_photon c) = o_path photon /\
  o_id (c_photon c) = o_id photon /\
  exists added,
    c_arrays c (o_path photon) = arrays (o_path photon) ++ added.

(** ** Concrete inputs used by the examples below *)

Module Sample.
Local Open Scope float_scope.

(** A host whose [Math.sin], [Math.cos] answer NaN: for runs in which no
    direction is resampled. *)
Definition noTrig (_ : float) : float := nan.

(** The first terms of the exponential series; exact at zero. *)
Definition expSeries (x : float) : float := 1 + x + x * x / 2.

(** A generator whose every draw is 0.75: the coin never turns. *)
Definition steady : Random := randomOf [] 0.75.

Definition unitSpeed : Settings := mkSettings 0.3 0.4 1 0.625 3.

(** A photon 3.4 from the centre, heading outwards at 0.2 per unit. *)
Definition nearBoundary : PhotonData.t :=
  PhotonData.mk 0 (Vector3.mk 3.4 0 0) (Vector3.mk 0.2 0 0)
    [Vector3.origin; Vector3.mk 3.4 0 0] false 3.4.

(** An escaped photon 10 from the centre, flying at 0.5. *)
Definition cruising : PhotonData.t :=
  PhotonData.mk 0 (Vector3.mk 10 0 0) (Vector3.mk 0.5 0 0)
    [Vector3.origin; Vector3.mk 3.5 0 0; Vector3.mk 10 0 0] true 10.

(** The page loads, the photon leaves the sphere during a long frame,
    flies past the cut-off during the next, and is retired. *)
Definition escape : list Event :=
  [Frame 0 unitSpeed false 100 steady;
   Frame 0 unitSpeed false 10 steady].

Definition clock : Z := 1762000000000.

(** A second escaped photon, with id 1, before and after a frame of 25 ms. *)
Definition cruisingSecond : PhotonData.t :=
  PhotonData.mk 1 (Vector3.mk 0 10 0) (Vector3.mk 0 0.5 0)
    [Vector3.origin; Vector3.mk 0 3.5 0; Vector3.mk 0 10 0] true 10.

Definition cruisingSecondMoved : PhotonData.t :=
  PhotonData.mk 1 (Vector3.mk 0 10.075 0) (Vector3.mk 0 0.5 0)
    [Vector3.origin; Vector3.mk 0 3.5 0; Vector3.mk 0 10 0] true 10.075.

(** The page after a first escape and retirement. *)
Definition afterFirstEscape : list Event :=
  escape ++ [Reap clock steady].

(** A photon object at the origin heading along x, its two-point path at
    address 0, and two frames of half a second, each followed by a render. *)
Definition walker : PhotonObject :=
  mkObject 0 Vector3.origin (Vector3.mk 0.2 0 0) 0 false 0.

Definition walkerArrays : Arrays :=
  fun _ => [Vector3.origin; Vector3.mk 0.002 0 0].

Definition twoFrames : list ComponentStep :=
  [FrameStep (mkTick unitSpeed false 0.5 steady); RenderStep;
   FrameStep (mkTick unitSpeed false 0.5 steady); RenderStep].
End Sample.

(** What the path-recording rule says, for a threshold [th]: the new
    position is appended exactly when the path is empty or its last point
    lies more than [th] away. *)
Definition exceeds (th : float) (path : list Vector3.t)
    (position : Vector3.t) : Prop :=
  path = [] \/
  exists front q,
    path = front ++ [q] /\ JS.gt (Vector3.distanceTo q position) th = true.

Definition appendsIff (th : float) (photon newPhoton : PhotonData.t) : Prop :=
  let seeded := seedPath photon in
  let position := PhotonData.position newPhoton in
  (exceeds th seeded position ->
     PhotonData.path newPhoton = seeded ++ [position]) /\
  (~ exceeds th seeded position -> PhotonData.path newPhoton = seeded).

(** A frame callback records paths with threshold [th], in both phases. *)
Definition recordsWithThreshold (th : float)
    (callback : Settings -> bool -> float -> PhotonData.t -> Random ->
                option PhotonData.t * Random) : Prop :=
  forall settings delta photon g,
    match fst (callback settings false delta photon g) with
    | Some newPhoton => appendsIff th photon newPhoton
    | None => False
    end.

(** The live population is never empty and never above the cap. *)
Definition populated (s : AppState) : Prop :=
  (1 <= length (photons s) <= MAX_PHOTONS)%nat.

(** How ids are handed out in a session with birth log [log] and events
    [evs]: the ids made by [createPhoton] strictly increase in creation
    order, and every respawned particle carries the clock reading of the
    retirement that made it. *)
Definition idsFromCounterOrClock (log : list (Origin * PhotonData.t))
    (evs : list Event) : Prop :=
  StronglySorted Z.lt (counterIds log) /\
  Forall (fun b => fst b = ByRespawn ->
                   exists now g,
                     In (Reap now g) evs /\ PhotonData.id (snd b) = now)
         log.

(** ** PhotonSimulation: the zoom buttons *)

(** [useState(10)] *)
Definition initialCameraDistance : float := 10.

(** [setCameraDistance(prev => Math.max(5, prev - 0.5))] *)
Definition handleZoomIn (prev : float) : float :=
  JS.Math_max 5%float (prev - 0.5)%float.

(** [setCameraDistance(prev => Math.min(15, prev + 0.5))] *)
Definition handleZoomOut (prev : float) : float :=
  JS.Math_min 15%float (prev + 0.5)%float.

Inductive ZoomClick := ZoomIn | ZoomOut.

Definition zoom (prev : float) (click : ZoomClick) : float :=
  match click with
  | ZoomIn => handleZoomIn prev
  | ZoomOut => handleZoomOut prev
  end.

(** The camera distance after a series of clicks. *)
Definition cameraDistanceAfter (clicks : list ZoomClick) : float :=
  fold_left zoom clicks initialCameraDistance.

(** The distances the buttons can reach: 5, 5.5, ..., 15. *)
Definition zoomStops : list float :=
  [5; 5.5; 6; 6.5; 7; 7.5; 8; 8.5; 9; 9.5; 10; 10.5; 11; 11.5; 12; 12.5; 13;
   13.5; 14; 14.5; 15]%float.

(** ** The export of the revision with the persistent buffer *)

(** What [export3D] puts into the exported group: the sphere, and one tube
    per path ([TubeGeometry(curve, tubularSegments, radius, 8, false)]). *)
Inductive ExportMesh :=
| SphereMesh (radius : float)
| TubeMesh (path : list Vector3.t) (tubularSegments : nat) (radius : float).

(** [addTrailMesh(group, path, radius)] *)
Definition addTrailMesh (group : list ExportMesh) (path : list Vector3.t)
    (radius : float) : list ExportMesh :=
  if (length path <? 2)%nat then group
  else
    let tubularSegments := Nat.min 2000 (length path * 2) in
    group ++ [TubeMesh path tubularSegments radius].

(** The group [export3D] hands to the exporter: sphere, completed trails,
    then the paths of the active photons. *)
Definition export3D (s : AppState) (settings : Settings) : list ExportMesh :=
  let exportGroup := [SphereMesh SPHERE_RADIUS] in
  let exportGroup :=
    fold_left
      (fun group trail =>
         addTrailMesh group (PhotonTrail.path trail)
           (photonSize settings * 0.002)%float)
      (trails s) exportGroup in
  fold_left
    (fun group photon =>
       addTrailMesh group (PhotonData.path photon)
         (photonSize settings * 0.002)%float)
    (photons s) exportGroup.

(** The tube [addTrailMesh] makes of a path of at least two points. *)
Definition tubeOf (settings : Settings) (path : list Vector3.t) : ExportMesh :=
  TubeMesh path (Nat.min 2000 (length path * 2))
    (photonSize settings * 0.002)%float.

(** ** ControlPanel: the add button *)

(** What a click on the add button does: pulse the button, or call
    [onAddPhoton]. *)
Inductive AddClick := Pulse | CallOnAddPhoton.

(** [handleAddPhoton] of [ControlPanel]. *)
Definition ControlPanel_handleAddPhoton (photonCount maxPhotons : nat)
  : AddClick :=
  if (maxPhotons <=? photonCount)%nat then Pulse else CallOnAddPhoton.

(** The click as [Index] wires it: [photonCount = photons.length],
    [maxPhotons = MAX_PHOTONS], [onAddPhoton = handleAddPhoton].  The flag
    says whether the button pulsed. *)
Definition clickAddPhoton (s : AppState) (g : Random) : AppState * bool :=
  match ControlPanel_handleAddPhoton (length (photons s)) MAX_PHOTONS with
  | Pulse => (s, true)
  | CallOnAddPhoton => (handleAddPhoton s g, false)
  end.

(** ** useAudioWobble: the level of one analysis pass *)

(** An element of the [Uint8Array], as a number. *)
Definition byteNumber (b : Z) : float := of_uint63 (Uint63.of_Z b).

(** The body of [analyze]: the energy of bins 8 to 31 (as far as the array
    reaches), over the fixed count of 24 bins, scaled by 2 and clamped. *)
Definition audioLevel (dataArray : list Z) : float :=
  let midStart := 8%nat in
  let midEnd := 32%nat in
  let sum :=
    fold_left
      (fun sum b =>
         let normalized := (byteNumber b / 255)%float in
         (sum + normalized * normalized)%float)
      (skipn midStart (firstn (Nat.min midEnd (length dataArray)) dataArray))
      0%float in
  let rms := sqrt (sum / 24)%float in
  JS.Math_min 1%float (rms * 2)%float.

(** ** Binary64 values, for the facts about the colour fade *)

(** +0, a positive finite number or +Infinity. *)
Definition nonneg (f : spec_float) : Prop :=
  match f with
  | S754_zero false | S754_infinity false | S754_finite false _ _ => True
  | _ => False
  end.


(** The mantissa of 3.5 = 7 * 2^50 * 2^-51. *)
Definition radiusMantissa : positive := 7881299347898368.

(** ** Notions used by the further properties *)

(** Whether the cached distance of a photon is NaN. *)
Definition distanceIsNaN (p : PhotonData.t) : bool :=
  is_nan (PhotonData.distanceFromCenter p).

(** Whether an event is a click on the reset button. *)
Definition isReset (ev : Event) : bool :=
  match ev with
  | Reset _ => true
  | _ => false
  end.

(** Every trail of a reachable state has at least two points. *)
Definition trailsDrawable (s : AppState) : Prop :=
  Forall (fun t => (2 <= length (PhotonTrail.path t))%nat) (trails s).

(** Live paths of at least two points. *)
Definition pathsDrawable (s : AppState) : Prop :=
  Forall (fun p => (2 <= length (PhotonData.path p))%nat) (photons s).

(** Live ids are distinct, and each is below the counter or a clock reading
    not below [bound]. *)
Definition idsApart (bound : Z) (s : AppState) : Prop :=
  NoDup (map PhotonData.id (photons s)) /\
  Forall (fun i => (i < photonIdCounter s \/ bound <= i)%Z)
    (map PhotonData.id (photons s)).

(** A live photon still in the inside phase is not at or beyond the
    sphere. *)
Definition insideWithin (s : AppState) : Prop :=
  Forall (fun p => PhotonData.isOutside p = false ->
                   JS.ge (PhotonData.distanceFromCenter p) SPHERE_RADIUS
                   = false)
    (photons s).

(** * Properties *)

(** ** The frame callback *)

Section FrameFacts.
Variables Math_sin Math_cos : float -> float.
Variable threshold : float.

Lemma frame_paused settings delta photon g :
  frame Math_sin Math_cos threshold settings true delta photon g = (None, g).
Proof. reflexivity. Qed.

Lemma frame_reports settings delta photon g :
  exists newPhoton,
    fst (frame Math_sin Math_cos threshold settings false delta photon g)
    = Some newPhoton.
Proof.
  unfold frame.
  destruct (negb (PhotonData.isOutside photon)).
  - destruct (walkInside _ _ _ _ _ _) as [m g']. simpl. eauto.
  - simpl. eauto.
Qed.

Lemma frame_keeps_id settings isPaused delta photon g newPhoton :
  fst (frame Math_sin Math_cos threshold settings isPaused delta photon g)
  = Some newPhoton ->
  PhotonData.id newPhoton = PhotonData.id photon.
Proof.
  unfold frame. destruct isPaused; [discriminate|].
  destruct (negb (PhotonData.isOutside photon)).
  - destruct (walkInside _ _ _ _ _ _) as [m g']. simpl.
    intros [= <-]. reflexivity.
  - simpl. intros [= <-]. reflexivity.
Qed.

Lemma frame_outside_stays settings isPaused delta photon g newPhoton :
  PhotonData.isOutside photon = true ->
  fst (frame Math_sin Math_cos threshold settings isPaused delta photon g)
  = Some newPhoton ->
  PhotonData.isOutside newPhoton = true.
Proof.
  unfold frame. intros Hout. rewrite Hout.
  destruct isPaused; [discriminate|]. simpl.
  intros [= <-]. reflexivity.
Qed.

Lemma tick_outside_stays photon t :
  PhotonData.isOutside photon = true ->
  PhotonData.isOutside (tick Math_sin Math_cos threshold photon t) = true.
Proof.
  intros Hout. unfold tick.
  destruct (fst (frame _ _ _ _ _ _ _ _)) as [newPhoton|] eqn:E; [|exact Hout].
  eapply frame_outside_stays; eauto.
Qed.

Lemma life_outside_stays ticks : forall photon,
  PhotonData.isOutside photon = true ->
  PhotonData.isOutside (life Math_sin Math_cos threshold photon ticks) = true.
Proof.
  unfold life.
  induction ticks as [|t ticks IH]; intros photon Hout; simpl.
  - exact Hout.
  - apply IH. apply tick_outside_stays. exact Hout.
Qed.

(** The path handed to [onUpdate] is the seeded path, with the new
    position appended when [farEnough] says so. *)
Lemma frame_path settings delta photon g newPhoton :
  fst (frame Math_sin Math_cos threshold settings false delta photon g)
  = Some newPhoton ->
  PhotonData.path newPhoton
  = recordPath threshold (seedPath photon) (PhotonData.position newPhoton).
Proof.
  unfold frame.
  destruct (negb (PhotonData.isOutside photon)).
  - destruct (walkInside _ _ _ _ _ _) as [m g']. simpl.
    intros [= <-]. reflexivity.
  - simpl. intros [= <-]. reflexivity.
Qed.

Lemma seedPath_nonempty photon : seedPath photon <> [].
Proof.
  unfold seedPath.
  destruct (PhotonData.path photon) as [|a [|b l]]; simpl; discriminate.
Qed.

Lemma lastPoint_app front q : lastPoint (front ++ [q]) = Some q.
Proof.
  unfold lastPoint. rewrite length_app. simpl.
  replace (length front + 1 - 1)%nat with (length front) by lia.
  rewrite nth_error_app2 by lia.
  rewrite Nat.sub_diag. reflexivity.
Qed.

Lemma farEnough_exceeds path position :
  farEnough threshold path position = true <->
  exceeds threshold path position.
Proof.
  unfold farEnough, exceeds. split.
  - induction path as [|a front _] using rev_ind; [now left|].
    intros H. right. exists front, a. split; [reflexivity|].
    rewrite lastPoint_app in H.
    rewrite length_app in H. simpl in H.
    replace (length front + 1 =? 0)%nat with false in H
      by (symmetry; apply Nat.eqb_neq; lia).
    exact H.
  - intros [-> | (front & q & -> & Hq)]; [reflexivity|].
    rewrite lastPoint_app, Hq. apply orb_true_r.
Qed.

Lemma frame_appendsIff settings delta photon g :
  match fst (frame Math_sin Math_cos threshold settings false delta photon g)
  with
  | Some newPhoton => appendsIff threshold photon newPhoton
  | None => False
  end.
Proof.
  destruct (frame_reports settings delta photon g) as [newPhoton E].
  rewrite E. pose proof (frame_path _ _ _ _ _ E) as Hp.
  unfold appendsIff, recordPath in *. cbv zeta.
  destruct (farEnough threshold (seedPath photon)
              (PhotonData.position newPhoton)) eqn:F.
  - split; [intros _; exact Hp|].
    intros Hn. exfalso. apply Hn. apply farEnough_exceeds. exact F.
  - split; [|intros _; exact Hp].
    intros Hx. apply farEnough_exceeds in Hx. congruence.
Qed.
End FrameFacts.

(** ** Crossing the sphere *)

Section Crossing.
Variables Math_sin Math_cos : float -> float.
Local Open Scope float_scope.

(** The inside branch, written out: the coin and the two angles are the
    next three draws; the position moves along the heading; the test is on
    the length of the moved position, and that length is what is stored. *)
Lemma walkInside_eq settings speed photon g :
  let coin := draws g (drawn g) in
  let theta := draws g (S (drawn g)) * JS.Math_PI * 2 in
  let phi := draws g (S (S (drawn g))) * JS.Math_PI in
  let heading :=
    if coin <? 0.3 then
      Vector3.multiplyScalar
        (Vector3.mk (Math_sin phi * Math_cos theta)
                    (Math_sin phi * Math_sin theta)
                    (Math_cos phi))
        (stepDistance settings)
    else PhotonData.velocity photon in
  let moved :=
    Vector3.add (PhotonData.position photon)
      (Vector3.multiplyScalar heading speed) in
  let onSphere :=
    Vector3.multiplyScalar (Vector3.normalize moved) SPHERE_RADIUS in
  fst (walkInside Math_sin Math_cos settings speed photon g)
  = if SPHERE_RADIUS <=? Vector3.length moved then
      mkMotion onSphere
        (Vector3.multiplyScalar (Vector3.normalize onSphere) 0.5)
        true (Vector3.length moved)
    else mkMotion moved heading false (Vector3.length moved).
Proof.
  unfold walkInside, randomDirection, Math_random, JS.lt, JS.ge,
    Vector3.clone.
  cbn [draws drawn].
  destruct (draws g (drawn g) <? 0.3);
    match goal with
    | |- context [if ?c then _ else _] => destruct c
    end; reflexivity.
Qed.
End Crossing.

(** C1 (evaluated at the scenario of the specification).  A photon 3.4 from
    the centre takes one inside step of 0.2 along its heading.  The callback
    reports [isOutside = true], the position (3.5, 0, 0) and the velocity
    (0.5, 0, 0), but [distanceFromCenter] is the length measured before the
    position was scaled back: the binary64 value of 3.6, not 3.5.  Both
    revisions of the callback agree. *)
Theorem crossing_reports_distance_before_rescaling :
  forall Math_sin Math_cos : float -> float,
    let reported :=
      PhotonData.mk 0 (Vector3.mk 3.5 0 0) (Vector3.mk 0.5 0 0)
        [Vector3.origin; Vector3.mk 3.4 0 0; Vector3.mk 3.5 0 0]
        true 3.6%float in
    fst (Buffered.useFrame Math_sin Math_cos Sample.unitSpeed false 0.5
           Sample.nearBoundary Sample.steady) = Some reported /\
    fst (Immediate.useFrame Math_sin Math_cos Sample.unitSpeed false 0.5
           Sample.nearBoundary Sample.steady) = Some reported /\
    Vector3.length (PhotonData.position reported) = SPHERE_RADIUS /\
    PhotonData.distanceFromCenter reported <> SPHERE_RADIUS.
Proof.
  intros Math_sin Math_cos reported.
  split; [|split; [|split]].
  - vm_compute. reflexivity.
  - vm_compute. reflexivity.
  - vm_compute. reflexivity.
  - intros H.
    apply (f_equal (fun d => PrimFloat.eqb d SPHERE_RADIUS)) in H.
    vm_compute in H. discriminate.
Qed.

(** ** The phase flag *)

(** C4.  Once [isOutside] is true after some ticks of a particle's life, it
    is true after any further ticks, whatever the settings, pause flags,
    frame times and random draws of those ticks, in either revision. *)
Theorem isOutside_never_reverts :
  forall (Math_sin Math_cos : float -> float) (threshold : float)
         (photon : PhotonData.t) (ticks later : list Tick),
    PhotonData.isOutside (life Math_sin Math_cos threshold photon ticks)
    = true ->
    PhotonData.isOutside
      (life Math_sin Math_cos threshold photon (ticks ++ later)) = true.
Proof.
  intros Math_sin Math_cos threshold photon ticks later Hout.
  unfold life. rewrite fold_left_app.
  apply (life_outside_stays Math_sin Math_cos threshold later). exact Hout.
Qed.

Lemma isOutside_never_reverts_witness :
  PhotonData.isOutside
    (life Sample.noTrig Sample.noTrig DISTANCE_THRESHOLD Sample.nearBoundary
       ([mkTick Sample.unitSpeed false 0.5 Sample.steady]
        ++ [mkTick Sample.unitSpeed true 0.5 Sample.steady;
            mkTick Sample.unitSpeed false 0.5 Sample.steady])) = true.
Proof.
  apply (isOutside_never_reverts Sample.noTrig Sample.noTrig
           DISTANCE_THRESHOLD Sample.nearBoundary
           [mkTick Sample.unitSpeed false 0.5 Sample.steady]).
  vm_compute. reflexivity.
Defined.

(** ** Path recording *)

(** C3, as the code has it.  In both phases the callback appends the new
    position exactly when the (seeded) path is empty or its last point is
    farther from the new position than the revision's threshold: the literal
    0.05 in the revision that draws one line per segment, and
    [DISTANCE_THRESHOLD] = 0.1 in the revision with the persistent buffer. *)
Theorem path_recording_thresholds :
  forall Math_sin Math_cos : float -> float,
    recordsWithThreshold 0.05%float (Immediate.useFrame Math_sin Math_cos) /\
    recordsWithThreshold DISTANCE_THRESHOLD
      (Buffered.useFrame Math_sin Math_cos) /\
    DISTANCE_THRESHOLD = 0.1%float.
Proof.
  intros Math_sin Math_cos.
  split; [|split].
  - intros settings delta photon g. apply frame_appendsIff.
  - intros settings delta photon g. apply frame_appendsIff.
  - reflexivity.
Qed.

(** C3 as stated fails for the revision that draws one line per segment: an
    escaped photon that moves 0.075 in a frame of 25 ms gets the new point
    appended, although its path is not empty and the move does not exceed
    0.1. *)
Lemma path_recording_not_a_tenth_everywhere :
  ~ recordsWithThreshold 0.1%float
      (Immediate.useFrame Sample.noTrig Sample.noTrig).
Proof.
  intros H.
  specialize (H Sample.unitSpeed 0.025%float Sample.cruising Sample.steady).
  destruct (fst (Immediate.useFrame _ _ _ _ _ _ _)) as [newPhoton|] eqn:E;
    [|exact H].
  vm_compute in E. injection E as <-.
  destruct H as [_ H].
  assert (Hn : ~ exceeds 0.1%float (seedPath Sample.cruising)
                   (Vector3.mk 10.074999999999999 0 0)).
  { intros [Hnil | (front & q & Hpath & Hq)].
    - vm_compute in Hnil. discriminate.
    - change (seedPath Sample.cruising)
        with ([Vector3.origin; Vector3.mk 3.5 0 0] ++ [Vector3.mk 10 0 0])
        in Hpath.
      apply app_inj_tail in Hpath. destruct Hpath as [_ <-].
      vm_compute in Hq. discriminate. }
  specialize (H Hn).
  apply (f_equal (@length _)) in H. vm_compute in H. discriminate.
Qed.

(** ** Particle construction *)

Lemma createPhoton_eq c g :
  createPhoton c g
  = (PhotonData.mk c Vector3.origin (fst (smallVelocity g))
       [Vector3.origin;
        Vector3.add Vector3.origin
          (Vector3.multiplyScalar (fst (smallVelocity g)) 0.01%float)]
       false 0%float,
     (c + 1)%Z, snd (smallVelocity g)).
Proof. reflexivity. Qed.

Lemma createPhoton_fresh c g : freshlySpawned (fst (fst (createPhoton c g))).
Proof. rewrite createPhoton_eq. repeat split. Qed.

Lemma births_fresh spawn
    (Hspawn : forall now g, freshlySpawned (spawn now g)) s ev :
  Forall (fun b => freshlySpawned (snd b)) (births spawn s ev).
Proof.
  destruct ev as [g|g|g|i settings isPaused delta g|now g]; simpl.
  - repeat constructor; apply createPhoton_fresh.
  - repeat constructor; apply createPhoton_fresh.
  - destruct (length (photons s) <? MAX_PHOTONS)%nat;
      repeat constructor; apply createPhoton_fresh.
  - constructor.
  - unfold reap.
    destruct (_ && _); [repeat constructor; apply Hspawn|].
    destruct (negb _); constructor.
Qed.

Lemma born_fresh Math_sin Math_cos threshold spawn
    (Hspawn : forall now g, freshlySpawned (spawn now g)) evs :
  forall s,
    Forall (fun b => freshlySpawned (snd b))
      (born Math_sin Math_cos threshold spawn s evs).
Proof.
  induction evs as [|ev evs IH]; intros s; simpl.
  - constructor.
  - apply Forall_app. split; [apply births_fresh; exact Hspawn | apply IH].
Qed.

Lemma Immediate_spawn_fresh now g : freshlySpawned (Immediate.spawn now g).
Proof. repeat split. Qed.

Lemma Buffered_spawn_fresh now g : freshlySpawned (Buffered.spawn now g).
Proof. repeat split. Qed.

(** C10.  Every constructor of particles -- [createPhoton], which makes the
    initial particle and those of [handleAddPhoton] and [handleReset], and
    the replacement literal of either revision -- leaves [isOutside = false],
    the position at the origin, [distanceFromCenter = 0] and a path whose
    first point is the origin; the origin lies inside the sphere; and so
    every particle born in any session starts that way. *)
Theorem every_particle_starts_inside_at_origin :
  forall (Math_sin Math_cos : float -> float) (threshold : float)
         (c now : Z) (g g0 : Random) (s : AppState) (evs : list Event),
    freshlySpawned (fst (fst (createPhoton c g))) /\
    freshlySpawned (Immediate.spawn now g) /\
    freshlySpawned (Buffered.spawn now g) /\
    photons (initialState g) = [fst (fst (createPhoton 0 g))] /\
    photons (handleReset s g)
    = [fst (fst (createPhoton (photonIdCounter s) g))] /\
    (photons (handleAddPhoton s g) = photons s \/
     photons (handleAddPhoton s g)
     = photons s ++ [fst (fst (createPhoton (photonIdCounter s) g))]) /\
    JS.lt (Vector3.length Vector3.origin) SPHERE_RADIUS = true /\
    Forall (fun b => freshlySpawned (snd b))
      (sessionBirths Math_sin Math_cos threshold Immediate.spawn g0 evs) /\
    Forall (fun b => freshlySpawned (snd b))
      (sessionBirths Math_sin Math_cos threshold Buffered.spawn g0 evs).
Proof.
  intros Math_sin Math_cos threshold c now g g0 s evs.
  split; [apply createPhoton_fresh|].
  split; [apply Immediate_spawn_fresh|].
  split; [apply Buffered_spawn_fresh|].
  split; [reflexivity|].
  split; [reflexivity|].
  split.
  { unfold handleAddPhoton.
    destruct (length (photons s) <? MAX_PHOTONS)%nat; [right|left];
      reflexivity. }
  split; [vm_compute; reflexivity|].
  split.
  - constructor; [apply createPhoton_fresh|].
    apply born_fresh. exact Immediate_spawn_fresh.
  - constructor; [apply createPhoton_fresh|].
    apply born_fresh. exact Buffered_spawn_fresh.
Qed.

(** ** Trails *)

(** C5.  The trail built from a removed photon carries the photon's id and a
    path of at least two points: two copies of the position when the photon's
    path is empty, the sole point twice when it has one point, and the path
    itself otherwise; and the trails a retirement hands over are exactly the
    trails so built from the removed photons. *)
Theorem trail_has_two_points :
  forall (spawn : Z -> Random -> PhotonData.t) (photons : list PhotonData.t)
         (now : Z) (g : Random) (p : PhotonData.t),
    PhotonTrail.id (toTrail p) = PhotonData.id p /\
    (2 <= length (PhotonTrail.path (toTrail p)))%nat /\
    PhotonTrail.path (toTrail p)
    = match PhotonData.path p with
      | [] => [PhotonData.position p; PhotonData.position p]
      | [only] => [only; only]
      | path => path
      end /\
    (reap spawn photons now g = Unchanged \/
     reapTrails (reap spawn photons now g)
     = map toTrail (removedPhotons photons)).
Proof.
  intros spawn photons now g p.
  split; [reflexivity|].
  split.
  { unfold toTrail.
    destruct (PhotonData.path p) as [|a [|b l]]; simpl; lia. }
  split.
  { unfold toTrail.
    destruct (PhotonData.path p) as [|a [|b l]]; reflexivity. }
  unfold reap.
  destruct (_ && _); [right; reflexivity|].
  destruct (negb _); [right; reflexivity | left; reflexivity].
Qed.

(** ** The population *)

Lemma activePhotons_le photons :
  (length (activePhotons photons) <= length photons)%nat.
Proof. apply filter_length_le. Qed.

Lemma handlePhotonUpdate_length photons updatedPhoton :
  length (handlePhotonUpdate photons updatedPhoton) = length photons.
Proof. apply length_map. Qed.

Section SessionFacts.
Variables Math_sin Math_cos : float -> float.
Variable threshold : float.
Variable spawn : Z -> Random -> PhotonData.t.

(** The three outcomes of the retirement effect, on the page state. *)
Lemma reapEffect_cases s now g :
  let active := activePhotons (photons s) in
  let newTrails := map toTrail (removedPhotons (photons s)) in
  (photons s <> [] /\ active = [] /\
   reapEffect spawn s now g
   = mkApp [spawn now g] (trails s ++ newTrails) (photonIdCounter s)) \/
  (active <> [] /\ length active <> length (photons s) /\
   reapEffect spawn s now g
   = mkApp active (trails s ++ newTrails) (photonIdCounter s)) \/
  (length active = length (photons s) /\ reapEffect spawn s now g = s).
Proof.
  intros active newTrails. unfold reapEffect, reap.
  fold active. fold newTrails.
  pose proof (activePhotons_le (photons s)) as Hle. fold active in Hle.
  destruct (length active <? length (photons s))%nat eqn:Hlt;
    [apply Nat.ltb_lt in Hlt | apply Nat.ltb_ge in Hlt].
  - destruct (length active =? 0)%nat eqn:Hz;
      [apply Nat.eqb_eq in Hz | apply Nat.eqb_neq in Hz]; simpl.
    + left. split; [|split].
      * intros E. rewrite E in Hlt. simpl in Hlt. lia.
      * destruct active; [reflexivity | discriminate].
      * reflexivity.
    + right. left.
      replace (length active =? length (photons s))%nat with false
        by (symmetry; apply Nat.eqb_neq; lia).
      simpl. split; [|split].
      * intros E. rewrite E in Hz. apply Hz. reflexivity.
      * lia.
      * reflexivity.
  - right. right. simpl.
    replace (length active =? length (photons s))%nat with true
      by (symmetry; apply Nat.eqb_eq; lia).
    simpl. split; [lia | reflexivity].
Qed.

Lemma initialState_populated g0 : populated (initialState g0).
Proof. unfold populated, MAX_PHOTONS. simpl. lia. Qed.

Lemma dispatch_populated s ev :
  populated s ->
  populated (dispatch Math_sin Math_cos threshold spawn s ev).
Proof.
  unfold populated, MAX_PHOTONS. intros Hs.
  destruct ev as [g|g|g|i settings isPaused delta g|now g]; simpl.
  - exact Hs.
  - lia.
  - unfold handleAddPhoton, MAX_PHOTONS.
    destruct (length (photons s) <? 8)%nat eqn:Hlt; [|exact Hs].
    apply Nat.ltb_lt in Hlt. simpl. rewrite length_app. simpl. lia.
  - unfold photonFrame.
    destruct (nth_error (photons s) i) as [photon|]; [|exact Hs].
    destruct (fst (frame _ _ _ _ _ _ _ _)) as [newPhoton|]; [|exact Hs].
    simpl. rewrite handlePhotonUpdate_length. exact Hs.
  - pose proof (activePhotons_le (photons s)) as Hle.
    destruct (reapEffect_cases s now g)
      as [(_ & _ & ->) | [(Hne & Hlen & ->) | (_ & ->)]]; simpl.
    + lia.
    + destruct (activePhotons (photons s)); [congruence|]. simpl in *. lia.
    + exact Hs.
Qed.

Lemma run_populated evs : forall s,
  populated s -> populated (run Math_sin Math_cos threshold spawn s evs).
Proof.
  induction evs as [|ev evs IH]; intros s Hs; simpl.
  - exact Hs.
  - apply IH. apply dispatch_populated. exact Hs.
Qed.

Lemma reachable_populated s :
  reachable Math_sin Math_cos threshold spawn s -> populated s.
Proof.
  intros (g0 & evs & ->). apply run_populated. apply initialState_populated.
Qed.

Lemma reachable_initial g0 :
  reachable Math_sin Math_cos threshold spawn (initialState g0).
Proof. exists g0, []. reflexivity. Qed.

Lemma reachable_dispatch s ev :
  reachable Math_sin Math_cos threshold spawn s ->
  reachable Math_sin Math_cos threshold spawn
    (dispatch Math_sin Math_cos threshold spawn s ev).
Proof.
  intros (g0 & evs & ->). exists g0, (evs ++ [ev]).
  unfold session. generalize (initialState g0).
  induction evs as [|e evs IH]; intros s0; simpl; [reflexivity | apply IH].
Qed.

(** *** Ids *)

Lemma dispatch_counter s ev :
  (photonIdCounter s
   <= photonIdCounter (dispatch Math_sin Math_cos threshold spawn s ev))%Z.
Proof.
  destruct ev as [g|g|g|i settings isPaused delta g|now g]; simpl;
    try lia.
  - unfold handleAddPhoton.
    destruct (length (photons s) <? MAX_PHOTONS)%nat; simpl; lia.
  - unfold photonFrame.
    destruct (nth_error (photons s) i) as [photon|]; [|lia].
    destruct (fst (frame _ _ _ _ _ _ _ _)); simpl; lia.
  - destruct (reapEffect_cases s now g)
      as [(_ & _ & ->) | [(_ & _ & ->) | (_ & ->)]]; simpl; lia.
Qed.

(** An event makes at most one particle through [createPhoton]; its id is
    the counter before the event, and the counter is larger afterwards. *)
Lemma births_counter s ev :
  counterIds (births spawn s ev) = [] \/
  (counterIds (births spawn s ev) = [photonIdCounter s] /\
   (photonIdCounter s
    < photonIdCounter (dispatch Math_sin Math_cos threshold spawn s ev))%Z).
Proof.
  destruct ev as [g|g|g|i settings isPaused delta g|now g]; simpl.
  - right. split; [reflexivity | lia].
  - right. split; [reflexivity | lia].
  - unfold handleAddPhoton.
    destruct (length (photons s) <? MAX_PHOTONS)%nat; simpl;
      [right; split; [reflexivity | lia] | left; reflexivity].
  - left. reflexivity.
  - left. destruct (reap spawn (photons s) now g); reflexivity.
Qed.

Lemma counterIds_app l1 l2 :
  counterIds (l1 ++ l2) = counterIds l1 ++ counterIds l2.
Proof. unfold counterIds. rewrite filter_app, map_app. reflexivity. Qed.

Lemma born_counter evs : forall s,
  StronglySorted Z.lt
    (counterIds (born Math_sin Math_cos threshold spawn s evs)) /\
  Forall (fun i => (photonIdCounter s <= i)%Z)
    (counterIds (born Math_sin Math_cos threshold spawn s evs)).
Proof.
  induction evs as [|ev evs IH]; intros s; simpl.
  - split; constructor.
  - rewrite counterIds_app.
    destruct (IH (dispatch Math_sin Math_cos threshold spawn s ev))
      as [Hsorted Hge].
    pose proof (dispatch_counter s ev) as Hmono.
    destruct (births_counter s ev) as [-> | [-> Hlt]]; simpl.
    + split; [exact Hsorted|].
      eapply Forall_impl; [|exact Hge]. simpl. intros; lia.
    + split.
      * constructor; [exact Hsorted|].
        eapply Forall_impl; [|exact Hge]. simpl. intros; lia.
      * constructor; [lia|].
        eapply Forall_impl; [|exact Hge]. simpl. intros; lia.
Qed.

Hypothesis spawn_id : forall now g, PhotonData.id (spawn now g) = now.

Lemma born_respawn evs : forall s,
  Forall (fun b => fst b = ByRespawn ->
                   exists now g,
                     In (Reap now g) evs /\ PhotonData.id (snd b) = now)
    (born Math_sin Math_cos threshold spawn s evs).
Proof.
  induction evs as [|ev evs IH]; intros s; simpl.
  - constructor.
  - apply Forall_app. split.
    + destruct ev as [g|g|g|i settings isPaused delta g|now g]; simpl.
      * repeat constructor. discriminate.
      * repeat constructor. discriminate.
      * destruct (length (photons s) <? MAX_PHOTONS)%nat;
          repeat constructor. discriminate.
      * constructor.
      * unfold reap.
        destruct (_ && _).
        -- repeat constructor. intros _. exists now, g.
           split; [left; reflexivity | apply spawn_id].
        -- destruct (negb _); constructor.
    + eapply Forall_impl; [|apply IH].
      intros b Hb Hr. destruct (Hb Hr) as (now & g & Hin & Hid).
      exists now, g. split; [right; exact Hin | exact Hid].
Qed.

Lemma session_ids g0 evs :
  idsFromCounterOrClock
    (sessionBirths Math_sin Math_cos threshold spawn g0 evs) evs.
Proof.
  unfold idsFromCounterOrClock, sessionBirths. split.
  - change (counterIds ((ByCreatePhoton, fst (fst (createPhoton 0 g0)))
                          :: born Math_sin Math_cos threshold spawn
                               (initialState g0) evs))
      with (0%Z :: counterIds (born Math_sin Math_cos threshold spawn
                                 (initialState g0) evs)).
    destruct (born_counter evs (initialState g0)) as [Hsorted Hge].
    constructor; [exact Hsorted|].
    eapply Forall_impl; [|exact Hge]. simpl. intros; lia.
  - constructor; [discriminate | apply born_respawn].
Qed.
End SessionFacts.

(** C8.  In any reachable state [handleAddPhoton] appends exactly one
    particle when fewer than [MAX_PHOTONS] = 8 photons are live, and changes
    nothing when 8 are; the live count is at most 8 before and after.  The
    appended particle is the one [createPhoton] makes: id the counter, at the
    origin, inside, distance 0, its velocity [(u - 0.5) * 0.1] per component
    for the next three draws [u] of the generator, and a path of two points,
    the origin and the origin plus 0.01 times that velocity. *)
Theorem addPhoton_respects_cap :
  forall (Math_sin Math_cos : float -> float) (threshold : float)
         (spawn : Z -> Random -> PhotonData.t) (s : AppState),
    reachable Math_sin Math_cos threshold spawn s ->
    forall g : Random,
      let velocity :=
        Vector3.mk ((draws g (drawn g) - 0.5) * 0.1)%float
                   ((draws g (S (drawn g)) - 0.5) * 0.1)%float
                   ((draws g (S (S (drawn g))) - 0.5) * 0.1)%float in
      let fresh :=
        PhotonData.mk (photonIdCounter s) (Vector3.mk 0 0 0) velocity
          [Vector3.mk 0 0 0;
           Vector3.mk (0 + Vector3.x velocity * 0.01)%float
                      (0 + Vector3.y velocity * 0.01)%float
                      (0 + Vector3.z velocity * 0.01)%float]
          false 0%float in
      ((length (photons s) < 8)%nat ->
       handleAddPhoton s g
       = mkApp (photons s ++ [fresh]) (trails s)
           (photonIdCounter s + 1)%Z) /\
      (length (photons s) = 8%nat -> handleAddPhoton s g = s) /\
      (length (photons s) <= 8)%nat /\
      (length (photons (handleAddPhoton s g)) <= 8)%nat /\
      MAX_PHOTONS = 8%nat /\
      trails (handleAddPhoton s g) = trails s /\
      fst (fst (createPhoton (photonIdCounter s) g)) = fresh /\
      length (PhotonData.path fresh) = 2%nat.
Proof.
  intros Math_sin Math_cos threshold spawn s Hs g velocity fresh.
  pose proof (reachable_populated _ _ _ _ _ Hs) as Hpop.
  pose proof (dispatch_populated Math_sin Math_cos threshold spawn
                _ (AddPhoton g) Hpop) as Hpop'.
  simpl in Hpop'. unfold populated, MAX_PHOTONS in Hpop, Hpop'.
  split; [|split].
  - intros Hlt. unfold handleAddPhoton, MAX_PHOTONS.
    apply Nat.ltb_lt in Hlt. rewrite Hlt. reflexivity.
  - intros Heq. unfold handleAddPhoton, MAX_PHOTONS. rewrite Heq.
    reflexivity.
  - split; [lia|]. split; [lia|]. split; [reflexivity|].
    split; [|split; reflexivity].
    unfold handleAddPhoton.
    destruct (length (photons s) <? MAX_PHOTONS)%nat; reflexivity.
Qed.

Lemma addPhoton_respects_cap_witness :
  handleAddPhoton
    (session Sample.noTrig Sample.noTrig DISTANCE_THRESHOLD Buffered.spawn
       Sample.steady (repeat (AddPhoton Sample.steady) 9))
    Sample.steady
  = session Sample.noTrig Sample.noTrig DISTANCE_THRESHOLD Buffered.spawn
      Sample.steady (repeat (AddPhoton Sample.steady) 9) /\
  handleAddPhoton (initialState Sample.steady) Sample.steady
  = mkApp
      [PhotonData.mk 0 (Vector3.mk 0 0 0) (Vector3.mk 0.025 0.025 0.025)
         [Vector3.mk 0 0 0; Vector3.mk 0.00025 0.00025 0.00025] false
         0%float;
       PhotonData.mk 1 (Vector3.mk 0 0 0) (Vector3.mk 0.025 0.025 0.025)
         [Vector3.mk 0 0 0; Vector3.mk 0.00025 0.00025 0.00025] false 0%float]
      [] 2%Z.
Proof.
  split.
  - exact (proj1 (proj2
             (addPhoton_respects_cap Sample.noTrig Sample.noTrig
                DISTANCE_THRESHOLD Buffered.spawn _
                (ex_intro _ Sample.steady
                   (ex_intro _ (repeat (AddPhoton Sample.steady) 9) eq_refl))
                Sample.steady)) eq_refl).
  - exact (proj1
             (addPhoton_respects_cap Sample.noTrig Sample.noTrig
                DISTANCE_THRESHOLD Buffered.spawn _
                (ex_intro _ Sample.steady (ex_intro _ [] eq_refl))
                Sample.steady) (le_S 2 7 (le_S 2 6 (le_S 2 5 (le_S 2 4
                  (le_S 2 3 (le_S 2 2 (le_n 2)))))))).
Defined.

(** C9, as the code has it.  In every session of either revision the ids
    made by [createPhoton] -- for the initial particle, for every particle of
    [handleAddPhoton] and [handleReset], and for the ones a re-render
    constructs and drops -- strictly increase in creation order, hence are
    pairwise distinct; a replacement particle made by the retirement effect
    carries the clock reading [Date.now()] of that effect as its id, not a
    value of the counter. *)
Theorem ids_from_counter_or_clock :
  forall (Math_sin Math_cos : float -> float) (threshold : float)
         (g0 : Random) (evs : list Event),
    idsFromCounterOrClock
      (sessionBirths Math_sin Math_cos threshold Immediate.spawn g0 evs) evs /\
    idsFromCounterOrClock
      (sessionBirths Math_sin Math_cos threshold Buffered.spawn g0 evs) evs.
Proof.
  intros Math_sin Math_cos threshold g0 evs.
  split; apply session_ids; reflexivity.
Qed.

(** C9 as stated fails: the page loads (id 0), the photon escapes and is
    retired at clock reading 1762000000000, which becomes the replacement's
    id, and the photon added next gets id 1 from the counter.  The ids, in
    creation order, are 0, 1762000000000, 1. *)
Lemma ids_not_increasing_after_respawn :
  ~ StronglySorted Z.lt
      (allIds
         (sessionBirths Sample.noTrig Sample.noTrig DISTANCE_THRESHOLD
            Buffered.spawn Sample.steady
            (Sample.escape
               ++ [Reap Sample.clock Sample.steady;
                   AddPhoton Sample.steady]))).
Proof.
  intros H.
  assert (E : allIds
                (sessionBirths Sample.noTrig Sample.noTrig DISTANCE_THRESHOLD
                   Buffered.spawn Sample.steady
                   (Sample.escape
                      ++ [Reap Sample.clock Sample.steady;
                          AddPhoton Sample.steady]))
              = [0; 1762000000000; 1]%Z)
    by (vm_compute; reflexivity).
  rewrite E in H.
  inversion H as [|a l Hl Ha]; subst.
  inversion Hl as [|b l' Hl' Hb]; subst.
  inversion Hb as [|c l'' Hlt _]; subst.
  discriminate Hlt.
Qed.

(** ** Segment colours *)

(** C7.  For every segment start point the loop of [Photon] and the loop of
    [TrailRenderer] compute the same value, in each revision: the same colour
    and opacity where lines are drawn one by one, the same vertex colour
    where the buffer is filled; and for one and the same path of at least
    two points the two components produce the same list of segments. *)
Theorem live_and_trail_colours_agree :
  forall (Math_exp : float -> float) (start a b : Vector3.t)
         (rest path : list Vector3.t),
    Immediate.Photon_segmentStyle Math_exp start
    = Immediate.TrailRenderer_segmentStyle Math_exp start /\
    Buffered.Photon_segmentColor Math_exp start
    = Buffered.TrailRenderer_segmentColor Math_exp start /\
    Immediate.Photon_pathLines Math_exp (a :: b :: rest)
    = Immediate.TrailRenderer_pathLines Math_exp (a :: b :: rest) /\
    Buffered.Photon_buffer Math_exp path
    = Buffered.TrailRenderer_buffer Math_exp path.
Proof.
  intros Math_exp start a b rest path.
  split; [reflexivity|]. split; [reflexivity|]. split; reflexivity.
Qed.

(** ** Binary64 arithmetic around the sphere radius

    The sign of [d - SPHERE_RADIUS] and of its tenth, read off the
    specification of the primitive operations. *)

Lemma shr_1_nonneg mrs : (0 <= shr_m mrs)%Z -> (0 <= shr_m (shr_1 mrs))%Z.
Proof.
  destruct mrs as [m r s]. simpl.
  destruct m as [|[p|p|]|[p|p|]]; simpl; lia.
Qed.

Lemma iter_shr_1_nonneg p : forall mrs,
  (0 <= shr_m mrs)%Z -> (0 <= shr_m (iter_pos shr_1 p mrs))%Z.
Proof.
  induction p as [p IH|p IH|]; intros mrs H; simpl.
  - apply IH, IH, shr_1_nonneg, H.
  - apply IH, IH, H.
  - apply shr_1_nonneg, H.
Qed.

Lemma shr_fexp_nonneg m e l :
  (0 <= m)%Z -> (0 <= shr_m (fst (shr_fexp prec emax m e l)))%Z.
Proof.
  intros H. unfold shr_fexp, shr.
  assert (H0 : (0 <= shr_m (shr_record_of_loc m l))%Z)
    by (destruct l as [|[| |]]; exact H).
  destruct (_ - e)%Z; simpl; auto.
  apply iter_shr_1_nonneg, H0.
Qed.

Lemma round_nearest_even_nonneg m l :
  (0 <= m)%Z -> (0 <= round_nearest_even m l)%Z.
Proof.
  intros H. unfold round_nearest_even.
  destruct l as [|[| |]]; try destruct (Z.even m); lia.
Qed.

Lemma binary_round_aux_nonneg m e l :
  (0 <= m)%Z -> nonneg (binary_round_aux prec emax false m e l).
Proof.
  intros H. unfold binary_round_aux.
  pose proof (shr_fexp_nonneg m e l H) as H1.
  destruct (shr_fexp prec emax m e l) as [mrs' e'].
  simpl in H1.
  pose proof (shr_fexp_nonneg _ e' loc_Exact
                (round_nearest_even_nonneg _ (loc_of_shr_record mrs') H1)) as H2.
  destruct (shr_fexp prec emax _ e' loc_Exact) as [mrs'' e''].
  simpl in H2.
  destruct (shr_m mrs'') as [|q|q]; simpl.
  - exact I.
  - destruct (_ <=? _)%Z; exact I.
  - lia.
Qed.

Lemma binary_normalize_pos_nonneg p e :
  nonneg (binary_normalize prec emax (Zpos p) e false).
Proof.
  unfold binary_normalize, binary_round.
  destruct (shl_align _ _ _) as [mz ez].
  apply binary_round_aux_nonneg. lia.
Qed.



Lemma radius_spec :
  Prim2SF SPHERE_RADIUS = S754_finite false radiusMantissa (-51).
Proof. reflexivity. Qed.



Lemma zero_spec : Prim2SF 0%float = S754_zero false.
Proof. reflexivity. Qed.






Lemma SFdiv_nonneg x M E :
  nonneg x -> nonneg (SF64div x (S754_finite false M E)).
Proof.
  intros H.
  destruct x as [[|]|[|]| |[|] m e]; try contradiction; try exact I.
  unfold SF64div, SFdiv, SFdiv_core_binary.
  set (e' := Z.min _ _).
  set (m' := match (e - E - e')%Z with
             | Z0 => Zpos m
             | Zpos _ => Z.shiftl (Zpos m) (e - E - e')
             | Zneg _ => Z0
             end).
  assert (Hm' : (0 <= m')%Z).
  { unfold m'. destruct (e - E - e')%Z; try lia.
    apply Z.shiftl_nonneg. lia. }
  destruct (Z.div_eucl m' (Zpos M)) as [q r] eqn:Ediv.
  assert (Hq : (0 <= q)%Z).
  { assert (q = m' / Zpos M)%Z as ->
      by (unfold Z.div; rewrite Ediv; reflexivity).
    apply Z.div_pos; lia. }
  apply binary_round_aux_nonneg. exact Hq.
Qed.


Lemma nonneg_not_nan x : nonneg (Prim2SF x) -> is_nan x = false.
Proof.
  intros H. unfold is_nan. rewrite eqb_spec.
  destruct (Prim2SF x) as [[|]|[|]| |[|] m e]; try contradiction;
    try reflexivity.
  unfold SFeqb, SFcompare. rewrite Z.compare_refl, Pos.compare_cont_refl.
  reflexivity.
Qed.



(** ** The colour and opacity of a segment *)

Section SegmentStyle.
Variable Math_exp : float -> float.
Local Open Scope float_scope.




End SegmentStyle.



(** * Further properties of the simulation code *)

(** ** One frame of one photon *)

(** Except in the frame in which the photon crosses the sphere (the flag
    changes), the reported [distanceFromCenter] is the length of the
    reported position. *)
Theorem frame_distance_is_length_unless_crossing :
  forall (Math_sin Math_cos : float -> float) (threshold : float)
         (settings : Settings) (delta : float) (photon : PhotonData.t)
         (g : Random) (newPhoton : PhotonData.t),
    fst (frame Math_sin Math_cos threshold settings false delta photon g)
    = Some newPhoton ->
    PhotonData.isOutside newPhoton = PhotonData.isOutside photon ->
    PhotonData.distanceFromCenter newPhoton
    = Vector3.length (PhotonData.position newPhoton).
Proof.
  intros Math_sin Math_cos threshold settings delta photon g newPhoton.
  unfold frame.
  destruct (PhotonData.isOutside photon) eqn:Hout; simpl.
  - intros [= <-] _. reflexivity.
  - unfold walkInside.
    destruct (Math_random g) as [coin g1].
    destruct (if JS.lt coin _ then _ else _) as [velocity g2].
    destruct (JS.ge _ SPHERE_RADIUS); simpl; intros [= <-]; simpl.
    + discriminate.
    + reflexivity.
Qed.

Lemma frame_distance_is_length_unless_crossing_witness :
  PhotonData.distanceFromCenter
    (PhotonData.mk 0 (Vector3.mk 10.074999999999999 0 0)
       (Vector3.mk 0.5 0 0)
       [Vector3.origin; Vector3.mk 3.5 0 0; Vector3.mk 10 0 0]
       true 10.074999999999999%float)
  = Vector3.length (Vector3.mk 10.074999999999999 0 0).
Proof.
  exact (frame_distance_is_length_unless_crossing
           Sample.noTrig Sample.noTrig DISTANCE_THRESHOLD Sample.unitSpeed
           0.025%float Sample.cruising Sample.steady _ eq_refl eq_refl).
Defined.

Lemma frame_path_added Math_sin Math_cos threshold settings delta photon g
    newPhoton :
  fst (frame Math_sin Math_cos threshold settings false delta photon g)
  = Some newPhoton ->
  exists added,
    PhotonData.path newPhoton = PhotonData.path photon ++ added /\
    (length added <= 2)%nat /\
    (1 <= length (PhotonData.path newPhoton))%nat /\
    (PhotonData.path photon = [] \/
     2 <= length (PhotonData.path newPhoton))%nat.
Proof.
  intros E.
  rewrite (frame_path _ _ _ _ _ _ _ _ E).
  unfold recordPath, seedPath.
  set (position := PhotonData.position newPhoton).
  set (seed := Vector3.clone (PhotonData.position photon)).
  destruct (PhotonData.path photon) as [|a [|b l]] eqn:Hp; simpl length;
    cbv iota beta.
  - destruct (farEnough _ _ _).
    + exists [seed; position]. simpl. repeat split; first [lia | now left].
    + exists [seed]. simpl. repeat split; first [lia | now left].
  - destruct (farEnough _ _ _).
    + exists [seed; position]. simpl. repeat split; first [lia | right; lia].
    + exists [seed]. simpl. repeat split; first [lia | right; lia].
  - destruct (farEnough _ _ _).
    + exists [Vector3.clone position]. simpl. rewrite ?length_app. simpl.
      repeat split; first [lia | right; lia].
    + exists []. rewrite app_nil_r. simpl.
      repeat split; first [lia | right; lia].
Qed.

(** A reported frame only appends to the path: at most the seed point and
    the new position.  The reported path is never empty, and it has at
    least two points as soon as the photon had one. *)
Theorem frame_extends_path :
  forall (Math_sin Math_cos : float -> float) (threshold : float)
         (settings : Settings) (delta : float) (photon : PhotonData.t)
         (g : Random) (newPhoton : PhotonData.t),
    fst (frame Math_sin Math_cos threshold settings false delta photon g)
    = Some newPhoton ->
    exists added,
      PhotonData.path newPhoton = PhotonData.path photon ++ added /\
      (length added <= 2)%nat /\
      (1 <= length (PhotonData.path newPhoton))%nat /\
      (PhotonData.path photon = [] \/
       2 <= length (PhotonData.path newPhoton))%nat.
Proof.
  intros Math_sin Math_cos threshold settings delta photon g newPhoton.
  apply frame_path_added.
Qed.

Lemma frame_extends_path_witness :
  exists added,
    [Vector3.origin; Vector3.mk 3.4 0 0; Vector3.mk 3.5 0 0]
    = PhotonData.path Sample.nearBoundary ++ added /\
    (length added <= 2)%nat /\
    (1 <= 3)%nat /\
    (PhotonData.path Sample.nearBoundary = [] \/ 2 <= 3)%nat.
Proof.
  exact (frame_extends_path Sample.noTrig Sample.noTrig DISTANCE_THRESHOLD
           Sample.unitSpeed 0.5%float Sample.nearBoundary Sample.steady
           (PhotonData.mk 0 (Vector3.mk 3.5 0 0) (Vector3.mk 0.5 0 0)
              [Vector3.origin; Vector3.mk 3.4 0 0; Vector3.mk 3.5 0 0]
              true 3.6%float)
           eq_refl).
Defined.

(** Over any number of ticks, paused or not, a photon keeps its id and its
    path only grows at the end: the path it had is a prefix of the path it
    has. *)
Theorem life_path_append_only :
  forall (Math_sin Math_cos : float -> float) (threshold : float)
         (ticks : list Tick) (photon : PhotonData.t),
    PhotonData.id (life Math_sin Math_cos threshold photon ticks)
    = PhotonData.id photon /\
    exists added,
      PhotonData.path (life Math_sin Math_cos threshold photon ticks)
      = PhotonData.path photon ++ added.
Proof.
  intros Math_sin Math_cos threshold ticks. unfold life.
  induction ticks as [|t ticks IH]; intros photon; simpl.
  - split; [reflexivity|]. exists []. symmetry. apply app_nil_r.
  - destruct (IH (tick Math_sin Math_cos threshold photon t))
      as [Hid [added Hadded]].
    rewrite Hid, Hadded. clear IH Hid Hadded.
    unfold tick.
    destruct (tick_isPaused t) eqn:Hp.
    + rewrite frame_paused. simpl. split; [reflexivity|]. eauto.
    + destruct (frame_reports Math_sin Math_cos threshold (tick_settings t)
                  (tick_delta t) photon (tick_random t)) as [newPhoton E].
      rewrite E.
      destruct (frame_path_added _ _ _ _ _ _ _ _ E) as (first & -> & _).
      split; [eapply frame_keeps_id; exact E|].
      exists (first ++ added). symmetry. apply app_assoc.
Qed.

(** ** The retirement effect *)

Lemma filter_all_length {A} (f : A -> bool) l :
  length (filter f l) = length l -> Forall (fun a => f a = true) l.
Proof.
  induction l as [|a l IH]; simpl; intros H; [constructor|].
  pose proof (filter_length_le f l) as Hle.
  destruct (f a) eqn:Fa; simpl in H.
  - constructor; [exact Fa | apply IH; lia].
  - lia.
Qed.

Lemma filter_all_id {A} (f : A -> bool) l :
  Forall (fun a => f a = true) l -> filter f l = l.
Proof.
  induction 1 as [|a l Ha _ IH]; simpl; [reflexivity|].
  rewrite Ha, IH. reflexivity.
Qed.

Lemma filter_Forall {A} (f : A -> bool) l :
  Forall (fun a => f a = true) (filter f l).
Proof.
  apply Forall_forall. intros a Ha. apply filter_In in Ha. apply Ha.
Qed.

Section ReapFacts.
Variable spawn : Z -> Random -> PhotonData.t.
Hypothesis spawn_near :
  forall now g,
    JS.lt (PhotonData.distanceFromCenter (spawn now g)) MAX_DISTANCE = true.

Lemma reapEffect_within s now g :
  Forall (fun p => JS.lt (PhotonData.distanceFromCenter p) MAX_DISTANCE = true)
    (photons (reapEffect spawn s now g)).
Proof.
  destruct (reapEffect_cases spawn s now g)
    as [(_ & _ & ->) | [(_ & _ & ->) | (Hlen & ->)]]; simpl.
  - repeat constructor. apply spawn_near.
  - apply filter_Forall.
  - apply filter_all_length in Hlen. exact Hlen.
Qed.

Lemma reap_settled photons now g :
  Forall (fun p => JS.lt (PhotonData.distanceFromCenter p) MAX_DISTANCE = true)
    photons ->
  reap spawn photons now g = Unchanged.
Proof.
  intros H. unfold reap, activePhotons.
  rewrite (filter_all_id _ _ H).
  rewrite Nat.ltb_irrefl, Nat.eqb_refl. reflexivity.
Qed.
End ReapFacts.

(** After the retirement effect has run, every live photon is strictly
    within [MAX_DISTANCE] of the centre, and a second run of the effect,
    at any time and with any draws, changes nothing: the effect, which
    re-runs whenever the photons change, settles after one pass.  Both
    revisions. *)
Theorem reap_settles_after_one_run :
  forall (s : AppState) (now now' : Z) (g g' : Random),
    (Forall (fun p => JS.lt (PhotonData.distanceFromCenter p) MAX_DISTANCE
                      = true)
       (photons (reapEffect Immediate.spawn s now g)) /\
     reapEffect Immediate.spawn (reapEffect Immediate.spawn s now g) now' g'
     = reapEffect Immediate.spawn s now g) /\
    (Forall (fun p => JS.lt (PhotonData.distanceFromCenter p) MAX_DISTANCE
                      = true)
       (photons (reapEffect Buffered.spawn s now g)) /\
     reapEffect Buffered.spawn (reapEffect Buffered.spawn s now g) now' g'
     = reapEffect Buffered.spawn s now g).
Proof.
  intros s now now' g g'.
  assert (HI : forall now g,
             JS.lt (PhotonData.distanceFromCenter (Immediate.spawn now g))
               MAX_DISTANCE = true) by reflexivity.
  assert (HB : forall now g,
             JS.lt (PhotonData.distanceFromCenter (Buffered.spawn now g))
               MAX_DISTANCE = true) by reflexivity.
  split; (split; [apply reapEffect_within; assumption|]).
  - unfold reapEffect at 1.
    rewrite (reap_settled Immediate.spawn _ now' g'
               (reapEffect_within Immediate.spawn HI s now g)).
    reflexivity.
  - unfold reapEffect at 1.
    rewrite (reap_settled Buffered.spawn _ now' g'
               (reapEffect_within Buffered.spawn HB s now g)).
    reflexivity.
Qed.

(** ** Comparisons of binary64 values *)

Lemma SFcompare_antisym x y :
  SFcompare y x = option_map CompOpp (SFcompare x y).
Proof.
  destruct x as [sx|sx| |sx mx ex], y as [sy|sy| |sy my ey];
    try reflexivity;
    try (destruct sx; reflexivity);
    try (destruct sy; reflexivity);
    try (destruct sx, sy; reflexivity).
  pose proof (Pos.compare_cont_antisym mx my Eq) as Hm. simpl in Hm.
  destruct sx, sy; simpl; try reflexivity.
  - rewrite (Z.compare_antisym ey ex).
    destruct (ey ?= ex)%Z; simpl; try reflexivity.
    rewrite <- Hm, CompOpp_involutive. reflexivity.
  - rewrite (Z.compare_antisym ey ex).
    destruct (ey ?= ex)%Z; simpl; try reflexivity.
    rewrite <- Hm. reflexivity.
Qed.

Lemma SFcompare_refl x : x <> S754_nan -> SFcompare x x = Some Eq.
Proof.
  destruct x as [s|s| |s m e]; intros H; try reflexivity.
  - destruct s; reflexivity.
  - congruence.
  - simpl. rewrite Z.compare_refl, Pos.compare_cont_refl.
    destruct s; reflexivity.
Qed.

Lemma is_nan_spec x : is_nan x = true <-> Prim2SF x = S754_nan.
Proof.
  unfold is_nan. rewrite eqb_spec. unfold SFeqb. split.
  - destruct (Prim2SF x) as [s|s| |s m e] eqn:E; try reflexivity;
      rewrite SFcompare_refl by discriminate; discriminate.
  - intros ->. reflexivity.
Qed.

(** For a number [y]: exactly one of [x < y], [x >= y], [x] is NaN. *)
Lemma lt_ge_nan x y :
  is_nan y = false ->
  (JS.lt x y = true /\ JS.ge x y = false /\ is_nan x = false) \/
  (JS.lt x y = false /\ JS.ge x y = true /\ is_nan x = false) \/
  (JS.lt x y = false /\ JS.ge x y = false /\ is_nan x = true).
Proof.
  intros Hy.
  assert (Hy' : Prim2SF y <> S754_nan).
  { intros E. apply is_nan_spec in E. congruence. }
  destruct (is_nan x) eqn:Hx.
  - right. right. apply is_nan_spec in Hx.
    unfold JS.lt, JS.ge. rewrite ltb_spec, leb_spec, Hx.
    unfold SFltb, SFleb.
    destruct (Prim2SF y) as [s|s| |s m e]; repeat split; reflexivity.
  - assert (Hx' : Prim2SF x <> S754_nan).
    { intros E. apply is_nan_spec in E. congruence. }
    unfold JS.lt, JS.ge. rewrite ltb_spec, leb_spec.
    unfold SFltb, SFleb. rewrite (SFcompare_antisym (Prim2SF x) (Prim2SF y)).
    destruct (SFcompare (Prim2SF x) (Prim2SF y)) as [[| |]|] eqn:E; simpl.
    + right. left. repeat split.
    + left. repeat split.
    + right. left. repeat split.
    + exfalso.
      destruct (Prim2SF x) as [s|[|]| |s m e], (Prim2SF y) as [s'|[|]| |s' m' e'];
        simpl in E; try discriminate; congruence.
Qed.

(** The retirement sorts every live photon into exactly one of three
    groups: active (within [MAX_DISTANCE]), removed (at or beyond it, one
    trail each), or neither, which happens exactly to the photons whose
    [distanceFromCenter] is NaN; those leave the live collection without a
    trail. *)
Theorem reap_sorts_photons :
  forall photons : list PhotonData.t,
    length photons
    = (length (activePhotons photons) + length (removedPhotons photons)
       + length (filter distanceIsNaN photons))%nat /\
    Forall (fun p => JS.ge (PhotonData.distanceFromCenter p) MAX_DISTANCE
                     = false /\ distanceIsNaN p = false)
      (activePhotons photons) /\
    Forall (fun p => JS.lt (PhotonData.distanceFromCenter p) MAX_DISTANCE
                     = false /\ distanceIsNaN p = false)
      (removedPhotons photons) /\
    length (map toTrail (removedPhotons photons))
    = length (removedPhotons photons).
Proof.
  intros photons.
  assert (H25 : is_nan MAX_DISTANCE = false) by reflexivity.
  split; [|split; [|split]].
  - unfold activePhotons, removedPhotons, distanceIsNaN.
    induction photons as [|p l IH]; simpl; [reflexivity|].
    destruct (lt_ge_nan (PhotonData.distanceFromCenter p) MAX_DISTANCE H25)
      as [(-> & -> & ->) | [(-> & -> & ->) | (-> & -> & ->)]];
      simpl; lia.
  - apply Forall_forall. intros p Hp. apply filter_In in Hp.
    destruct Hp as [_ Hp]. unfold distanceIsNaN.
    destruct (lt_ge_nan (PhotonData.distanceFromCenter p) MAX_DISTANCE H25)
      as [(_ & -> & ->) | [(E & _) | (E & _)]];
      [split; reflexivity | congruence | congruence].
  - apply Forall_forall. intros p Hp. apply filter_In in Hp.
    destruct Hp as [_ Hp]. unfold distanceIsNaN.
    destruct (lt_ge_nan (PhotonData.distanceFromCenter p) MAX_DISTANCE H25)
      as [(_ & E & _) | [(-> & _ & ->) | (_ & E & _)]];
      [congruence | split; reflexivity | congruence].
  - apply length_map.
Qed.

(** ** The population after a retirement *)

Lemma within_none_removed photons :
  Forall (fun p => JS.lt (PhotonData.distanceFromCenter p) MAX_DISTANCE = true)
    photons ->
  removedPhotons photons = [].
Proof.
  assert (H25 : is_nan MAX_DISTANCE = false) by reflexivity.
  induction 1 as [|p l Hp _ IH]; [reflexivity|].
  unfold removedPhotons in *. simpl.
  destruct (lt_ge_nan (PhotonData.distanceFromCenter p) MAX_DISTANCE H25)
    as [(_ & -> & _) | [(E & _) | (E & _)]];
    [exact IH | congruence | congruence].
Qed.

Lemma toTrail_eq p :
  toTrail p
  = PhotonTrail.mk (PhotonData.id p)
      match PhotonData.path p with
      | [] => [PhotonData.position p; PhotonData.position p]
      | [only] => [only; only]
      | path => path
      end.
Proof.
  unfold toTrail. destruct (PhotonData.path p) as [|a [|b l]]; reflexivity.
Qed.

(** What the effect leaves, for a collection that is not empty. *)
Lemma reapEffect_outcome spawn s now g :
  photons s <> [] ->
  photons (reapEffect spawn s now g)
  = match activePhotons (photons s) with
    | [] => [spawn now g]
    | active => active
    end /\
  trails (reapEffect spawn s now g)
  = trails s ++ map toTrail (removedPhotons (photons s)) /\
  photonIdCounter (reapEffect spawn s now g) = photonIdCounter s.
Proof.
  intros Hne.
  destruct (reapEffect_cases spawn s now g)
    as [(_ & Hnone & ->) | [(Hsome & _ & ->) | (Hlen & ->)]]; simpl.
  - rewrite Hnone. repeat split.
  - destruct (activePhotons (photons s)); [congruence | repeat split].
  - apply filter_all_length in Hlen.
    rewrite (within_none_removed _ Hlen), app_nil_r.
    unfold activePhotons. rewrite (filter_all_id _ _ Hlen).
    destruct (photons s); [congruence | repeat split].
Qed.

(** C2.  In any reachable state the retirement effect leaves at least one
    live photon.  The live photons afterwards are exactly those whose
    [distanceFromCenter] is below 25, in their order; when there is none, the
    live collection is exactly the one replacement photon.  In every case the
    trails of the photons whose [distanceFromCenter] is at least 25 -- the
    photon's id, with its path padded to two points -- are appended to the
    trail collection, and the id counter is not touched.  The replacement of
    either revision has the clock reading as id, sits at the origin, inside,
    at distance 0, and its velocity is [(u - 0.5) * 0.1] per component for the
    next three draws [u] of the generator. *)
Theorem reap_keeps_population :
  forall (Math_sin Math_cos : float -> float) (threshold : float)
         (spawn : Z -> Random -> PhotonData.t) (s : AppState),
    reachable Math_sin Math_cos threshold spawn s ->
    forall (now : Z) (g : Random),
      let velocity :=
        Vector3.mk ((draws g (drawn g) - 0.5) * 0.1)%float
                   ((draws g (S (drawn g)) - 0.5) * 0.1)%float
                   ((draws g (S (S (drawn g))) - 0.5) * 0.1)%float in
      (1 <= length (photons (reapEffect spawn s now g)))%nat /\
      photons (reapEffect spawn s now g)
      = match filter (fun p => (PhotonData.distanceFromCenter p <? 25)%float)
                (photons s) with
        | [] => [spawn now g]
        | active => active
        end /\
      trails (reapEffect spawn s now g)
      = trails s ++
        map (fun p =>
               PhotonTrail.mk (PhotonData.id p)
                 match PhotonData.path p with
                 | [] => [PhotonData.position p; PhotonData.position p]
                 | [only] => [only; only]
                 | path => path
                 end)
          (filter (fun p => (25 <=? PhotonData.distanceFromCenter p)%float)
             (photons s)) /\
      photonIdCounter (reapEffect spawn s now g) = photonIdCounter s /\
      Immediate.spawn now g
      = PhotonData.mk now (Vector3.mk 0 0 0) velocity [Vector3.mk 0 0 0]
          false 0%float /\
      Buffered.spawn now g
      = PhotonData.mk now (Vector3.mk 0 0 0) velocity
          [Vector3.mk 0 0 0;
           Vector3.mk (0 + Vector3.x velocity * 0.01)%float
                      (0 + Vector3.y velocity * 0.01)%float
                      (0 + Vector3.z velocity * 0.01)%float]
          false 0%float.
Proof.
  intros Math_sin Math_cos threshold spawn s Hs now g velocity.
  pose proof (reachable_populated _ _ _ _ _ Hs) as Hpop.
  pose proof (dispatch_populated Math_sin Math_cos threshold spawn
                _ (Reap now g) Hpop) as Hpop'.
  simpl in Hpop'. unfold populated in Hpop, Hpop'.
  assert (Hne : photons s <> []).
  { intros E. rewrite E in Hpop. simpl in Hpop. lia. }
  destruct (reapEffect_outcome spawn s now g Hne) as (Hp & Ht & Hc).
  split; [lia|].
  split; [exact Hp|].
  split.
  { rewrite Ht. f_equal. apply map_ext. exact toTrail_eq. }
  split; [exact Hc|].
  split; reflexivity.
Qed.

Lemma reap_keeps_population_witness :
  photons
    (reapEffect Buffered.spawn
       (session Sample.noTrig Sample.noTrig DISTANCE_THRESHOLD
          Buffered.spawn Sample.steady Sample.escape)
       Sample.clock Sample.steady)
  = [PhotonData.mk 1762000000000 (Vector3.mk 0 0 0)
       (Vector3.mk 0.025 0.025 0.025)
       [Vector3.mk 0 0 0; Vector3.mk 0.00025 0.00025 0.00025] false
       0%float].
Proof.
  exact (proj1 (proj2
           (reap_keeps_population Sample.noTrig Sample.noTrig
              DISTANCE_THRESHOLD Buffered.spawn _
              (ex_intro _ Sample.steady (ex_intro _ Sample.escape eq_refl))
              Sample.clock Sample.steady))).
Defined.

(** ** Sessions *)

Section MoreSessionFacts.
Variables Math_sin Math_cos : float -> float.
Variable threshold : float.
Variable spawn : Z -> Random -> PhotonData.t.

Lemma dispatch_trails s ev :
  isReset ev = false ->
  exists added,
    trails (dispatch Math_sin Math_cos threshold spawn s ev)
    = trails s ++ added /\
    added = match ev with
            | Reap now g => reapTrails (reap spawn (photons s) now g)
            | _ => []
            end.
Proof.
  intros Hr.
  destruct ev as [g|g|g|i settings isPaused delta g|now g];
    try discriminate; simpl; eexists; (split; [|reflexivity]).
  - symmetry. apply app_nil_r.
  - unfold handleAddPhoton.
    destruct (length (photons s) <? MAX_PHOTONS)%nat; simpl;
      symmetry; apply app_nil_r.
  - unfold photonFrame.
    destruct (nth_error (photons s) i) as [photon|];
      [|symmetry; apply app_nil_r].
    destruct (fst (frame _ _ _ _ _ _ _ _)); simpl; symmetry; apply app_nil_r.
  - unfold reapEffect.
    destruct (reap spawn (photons s) now g); simpl;
      try reflexivity. symmetry. apply app_nil_r.
Qed.

Lemma run_trails evs : forall s,
  forallb (fun ev => negb (isReset ev)) evs = true ->
  exists added,
    trails (run Math_sin Math_cos threshold spawn s evs) = trails s ++ added.
Proof.
  induction evs as [|ev evs IH]; intros s H; simpl.
  - exists []. symmetry. apply app_nil_r.
  - simpl in H. apply andb_prop in H. destruct H as [Hev Hevs].
    apply negb_true_iff in Hev.
    destruct (IH (dispatch Math_sin Math_cos threshold spawn s ev) Hevs)
      as [later ->].
    destruct (dispatch_trails s ev Hev) as (added & -> & _).
    exists (added ++ later). symmetry. apply app_assoc.
Qed.

Lemma toTrail_length p : (2 <= length (PhotonTrail.path (toTrail p)))%nat.
Proof.
  unfold toTrail.
  destruct (PhotonData.path p) as [|a [|b l]]; simpl; lia.
Qed.

Lemma reapTrails_drawable photons now g :
  Forall (fun t => (2 <= length (PhotonTrail.path t))%nat)
    (reapTrails (reap spawn photons now g)).
Proof.
  unfold reap.
  destruct (_ && _); [|destruct (negb _)]; simpl;
    try constructor;
    apply Forall_forall; intros t Ht; apply in_map_iff in Ht;
    destruct Ht as (p & <- & _); apply toTrail_length.
Qed.

Lemma dispatch_trailsDrawable s ev :
  trailsDrawable s ->
  trailsDrawable (dispatch Math_sin Math_cos threshold spawn s ev).
Proof.
  unfold trailsDrawable. intros Hs.
  destruct (isReset ev) eqn:Hr.
  - destruct ev; try discriminate. simpl. constructor.
  - destruct (dispatch_trails s ev Hr) as (added & -> & ->).
    apply Forall_app. split; [exact Hs|].
    destruct ev; try constructor. apply reapTrails_drawable.
Qed.

Hypothesis spawn_two_points :
  forall now g, (2 <= length (PhotonData.path (spawn now g)))%nat.

Lemma dispatch_pathsDrawable s ev :
  pathsDrawable s ->
  pathsDrawable (dispatch Math_sin Math_cos threshold spawn s ev).
Proof.
  unfold pathsDrawable. intros Hs.
  destruct ev as [g|g|g|i settings isPaused delta g|now g]; simpl.
  - exact Hs.
  - repeat constructor.
  - unfold handleAddPhoton.
    destruct (length (photons s) <? MAX_PHOTONS)%nat; [|exact Hs].
    simpl. apply Forall_app. split; [exact Hs | repeat constructor].
  - unfold photonFrame.
    destruct (nth_error (photons s) i) as [photon|] eqn:Hi; [|exact Hs].
    destruct (fst (frame _ _ _ _ _ _ _ _)) as [newPhoton|] eqn:E;
      [|exact Hs].
    simpl. unfold handlePhotonUpdate.
    apply Forall_forall. intros q Hq. apply in_map_iff in Hq.
    destruct Hq as (p & <- & Hp).
    destruct (PhotonData.id p =? PhotonData.id newPhoton)%Z.
    + assert (isPaused = false) as ->.
      { destruct isPaused; [discriminate E | reflexivity]. }
      destruct (frame_path_added _ _ _ _ _ _ _ _ E) as (added & _ & _ & _ & H).
      destruct H as [H | H]; [|exact H].
      apply nth_error_In in Hi.
      rewrite Forall_forall in Hs. specialize (Hs _ Hi).
      rewrite H in Hs. simpl in Hs. lia.
    + rewrite Forall_forall in Hs. apply Hs. exact Hp.
  - destruct (reapEffect_cases spawn s now g)
      as [(_ & _ & ->) | [(_ & _ & ->) | (_ & ->)]]; simpl.
    + repeat constructor. apply spawn_two_points.
    + apply Forall_forall. intros p Hp. apply filter_In in Hp.
      rewrite Forall_forall in Hs. apply Hs. apply Hp.
    + exact Hs.
Qed.

Lemma reachable_drawable s :
  reachable Math_sin Math_cos threshold spawn s ->
  pathsDrawable s /\ trailsDrawable s.
Proof.
  intros (g0 & evs & ->). unfold session.
  assert (H0 : pathsDrawable (initialState g0) /\
               trailsDrawable (initialState g0)).
  { split; [repeat constructor | constructor]. }
  revert H0. generalize (initialState g0).
  induction evs as [|ev evs IH]; intros s [Hp Ht]; simpl.
  - split; assumption.
  - apply IH. split.
    + apply dispatch_pathsDrawable, Hp.
    + apply dispatch_trailsDrawable, Ht.
Qed.
End MoreSessionFacts.

(** Only a reset shortens the trail collection: over any run of events
    without a reset the trails present at the start remain, in order, at
    the front of the collection. *)
Theorem trails_append_only :
  forall (Math_sin Math_cos : float -> float) (threshold : float)
         (spawn : Z -> Random -> PhotonData.t) (s : AppState)
         (evs : list Event),
    forallb (fun ev => negb (isReset ev)) evs = true ->
    exists added,
      trails (run Math_sin Math_cos threshold spawn s evs)
      = trails s ++ added.
Proof.
  intros Math_sin Math_cos threshold spawn s evs.
  apply run_trails.
Qed.

Lemma trails_append_only_witness :
  exists added,
    trails (run Sample.noTrig Sample.noTrig DISTANCE_THRESHOLD Buffered.spawn
              (session Sample.noTrig Sample.noTrig DISTANCE_THRESHOLD
                 Buffered.spawn Sample.steady Sample.afterFirstEscape)
              (AddPhoton Sample.steady :: Sample.afterFirstEscape))
    = trails (session Sample.noTrig Sample.noTrig DISTANCE_THRESHOLD
                Buffered.spawn Sample.steady Sample.afterFirstEscape)
      ++ added.
Proof.
  exact (trails_append_only Sample.noTrig Sample.noTrig DISTANCE_THRESHOLD
           Buffered.spawn
           (session Sample.noTrig Sample.noTrig DISTANCE_THRESHOLD
              Buffered.spawn Sample.steady Sample.afterFirstEscape)
           (AddPhoton Sample.steady :: Sample.afterFirstEscape)
           eq_refl).
Defined.

(** ** The export *)

Lemma addTrailMesh_drawable group path radius :
  (2 <= length path)%nat ->
  addTrailMesh group path radius
  = group ++ [TubeMesh path (Nat.min 2000 (length path * 2)) radius].
Proof.
  intros H. unfold addTrailMesh.
  replace (length path <? 2)%nat with false
    by (symmetry; apply Nat.ltb_ge; exact H).
  reflexivity.
Qed.

Lemma addTrailMesh_short group path radius :
  (length path < 2)%nat -> addTrailMesh group path radius = group.
Proof.
  intros H. unfold addTrailMesh.
  apply Nat.ltb_lt in H. rewrite H. reflexivity.
Qed.

Lemma fold_addTrailMesh {A} (pathOf : A -> list Vector3.t) settings l :
  Forall (fun a => (2 <= length (pathOf a))%nat) l ->
  forall group,
    fold_left
      (fun group a =>
         addTrailMesh group (pathOf a) (photonSize settings * 0.002)%float)
      l group
    = group ++ map (fun a => tubeOf settings (pathOf a)) l.
Proof.
  induction 1 as [|a l Ha _ IH]; intros group; simpl.
  - symmetry. apply app_nil_r.
  - rewrite IH, addTrailMesh_drawable by exact Ha.
    rewrite <- app_assoc. reflexivity.
Qed.

(** In any state reachable in the revision with the persistent buffer, the
    exported group is the sphere followed by one tube for every completed
    trail and one for every live photon, in order: no path is left out,
    because every trail and every live path has at least two points.  A tube
    has between 4 and 2000 tubular segments. *)
Theorem export_holds_every_path :
  forall (Math_sin Math_cos : float -> float) (threshold : float)
         (s : AppState) (settings : Settings),
    reachable Math_sin Math_cos threshold Buffered.spawn s ->
    export3D s settings
    = SphereMesh SPHERE_RADIUS
        :: map (fun t => tubeOf settings (PhotonTrail.path t)) (trails s)
        ++ map (fun p => tubeOf settings (PhotonData.path p)) (photons s) /\
    Forall (fun mesh => match mesh with
                        | SphereMesh _ => True
                        | TubeMesh _ n _ => (4 <= n <= 2000)%nat
                        end)
      (export3D s settings).
Proof.
  intros Math_sin Math_cos threshold s settings Hs.
  destruct (reachable_drawable Math_sin Math_cos threshold Buffered.spawn
              (fun now g => le_n 2) s Hs) as [Hp Ht].
  assert (E : export3D s settings
              = SphereMesh SPHERE_RADIUS
                  :: map (fun t => tubeOf settings (PhotonTrail.path t))
                       (trails s)
                  ++ map (fun p => tubeOf settings (PhotonData.path p))
                       (photons s)).
  { unfold export3D.
    rewrite (fold_addTrailMesh PhotonTrail.path settings (trails s) Ht).
    rewrite (fold_addTrailMesh PhotonData.path settings (photons s) Hp).
    simpl. reflexivity. }
  split; [exact E|].
  rewrite E. constructor; [exact I|].
  apply Forall_app. split.
  - apply Forall_forall. intros m Hm. apply in_map_iff in Hm.
    destruct Hm as (t & <- & Hin).
    unfold trailsDrawable in Ht. rewrite Forall_forall in Ht.
    specialize (Ht t Hin). unfold tubeOf. lia.
  - apply Forall_forall. intros m Hm. apply in_map_iff in Hm.
    destruct Hm as (p & <- & Hin).
    unfold pathsDrawable in Hp. rewrite Forall_forall in Hp.
    specialize (Hp p Hin). unfold tubeOf. lia.
Qed.

Lemma export_holds_every_path_witness :
  length
    (export3D
       (session Sample.noTrig Sample.noTrig DISTANCE_THRESHOLD Buffered.spawn
          Sample.steady
          (Sample.escape ++ [Reap Sample.clock Sample.steady;
                             AddPhoton Sample.steady]))
       Sample.unitSpeed) = 4%nat.
Proof.
  rewrite (proj1
             (export_holds_every_path Sample.noTrig Sample.noTrig
                DISTANCE_THRESHOLD _ Sample.unitSpeed
                (ex_intro _ Sample.steady
                   (ex_intro _
                      (Sample.escape ++ [Reap Sample.clock Sample.steady;
                                         AddPhoton Sample.steady])
                      eq_refl)))).
  vm_compute. reflexivity.
Defined.


(** ** Ids of the live photons *)

Lemma handlePhotonUpdate_ids photons updatedPhoton :
  map PhotonData.id (handlePhotonUpdate photons updatedPhoton)
  = map PhotonData.id photons.
Proof.
  unfold handlePhotonUpdate. rewrite map_map. apply map_ext.
  intros p.
  destruct (PhotonData.id p =? PhotonData.id updatedPhoton)%Z eqn:E;
    [|reflexivity].
  apply Z.eqb_eq in E. symmetry. exact E.
Qed.

Lemma handlePhotonUpdate_one photons : forall i p updatedPhoton,
  NoDup (map PhotonData.id photons) ->
  nth_error photons i = Some p ->
  PhotonData.id updatedPhoton = PhotonData.id p ->
  handlePhotonUpdate photons updatedPhoton
  = firstn i photons ++ updatedPhoton :: skipn (S i) photons.
Proof.
  assert (Hsame : forall l u,
             ~ In (PhotonData.id u) (map PhotonData.id l) ->
             handlePhotonUpdate l u = l).
  { induction l as [|q l IH]; intros u Hu; simpl; [reflexivity|].
    simpl in Hu.
    destruct (PhotonData.id q =? PhotonData.id u)%Z eqn:E.
    - apply Z.eqb_eq in E. tauto.
    - f_equal. apply IH. tauto. }
  induction photons as [|q l IH]; intros i p u Hnd Hi Hid.
  - destruct i; discriminate.
  - simpl in Hnd. inversion Hnd as [|x xs Hnotin Hnd']; subst.
    destruct i as [|i]; simpl in Hi.
    + injection Hi as ->. simpl.
      rewrite Hid, Z.eqb_refl. f_equal.
      apply Hsame. rewrite Hid. exact Hnotin.
    + simpl.
      destruct (PhotonData.id q =? PhotonData.id u)%Z eqn:E.
      * apply Z.eqb_eq in E. exfalso. apply Hnotin.
        rewrite E, Hid. apply in_map. eapply nth_error_In. exact Hi.
      * f_equal. eapply IH; eassumption.
Qed.

Section IdFacts.
Variables Math_sin Math_cos : float -> float.
Variable threshold : float.
Variable spawn : Z -> Random -> PhotonData.t.
Hypothesis spawn_id : forall now g, PhotonData.id (spawn now g) = now.

Lemma run_counter evs : forall s,
  (photonIdCounter s
   <= photonIdCounter (run Math_sin Math_cos threshold spawn s evs))%Z.
Proof.
  induction evs as [|ev evs IH]; intros s; simpl; [lia|].
  pose proof (dispatch_counter Math_sin Math_cos threshold spawn s ev).
  specialize (IH (dispatch Math_sin Math_cos threshold spawn s ev)). lia.
Qed.

Lemma NoDup_map_filter {A B} (f : A -> B) (keep : A -> bool) l :
  NoDup (map f l) -> NoDup (map f (filter keep l)).
Proof.
  induction l as [|a l IH]; simpl; intros H; [constructor|].
  inversion H as [|x xs Hnotin Hnd]; subst.
  destruct (keep a); simpl; [constructor|]; auto.
  intros Hin. apply Hnotin. apply in_map_iff in Hin.
  destruct Hin as (b & <- & Hb). apply in_map. apply filter_In in Hb.
  apply Hb.
Qed.

Lemma NoDup_snoc {A} (l : list A) a :
  NoDup l -> ~ In a l -> NoDup (l ++ [a]).
Proof.
  induction l as [|x l IH]; simpl; intros Hnd Ha.
  - repeat constructor. simpl. tauto.
  - inversion Hnd as [|y ys Hx Hl]; subst.
    constructor; [|apply IH; tauto].
    intros Hin. apply in_app_or in Hin. simpl in Hin.
    destruct Hin as [Hin | [-> | []]]; tauto.
Qed.

Lemma dispatch_idsApart bound s ev :
  (photonIdCounter (dispatch Math_sin Math_cos threshold spawn s ev)
   <= bound)%Z ->
  (forall now g, ev = Reap now g -> (bound <= now)%Z) ->
  idsApart bound s ->
  idsApart bound (dispatch Math_sin Math_cos threshold spawn s ev).
Proof.
  unfold idsApart. intros Hb Hclock [Hnd Hids].
  destruct ev as [g|g|g|i settings isPaused delta g|now g]; simpl in *.
  - split; [exact Hnd|].
    eapply Forall_impl; [|exact Hids]. simpl. intros; lia.
  - split; [repeat constructor; simpl; tauto|].
    constructor; [|constructor]. left. lia.
  - unfold handleAddPhoton in *.
    destruct (length (photons s) <? MAX_PHOTONS)%nat; simpl in *;
      [|split; assumption].
    rewrite map_app. simpl. split.
    + apply NoDup_snoc; [exact Hnd|].
      intros Hin. rewrite Forall_forall in Hids.
      specialize (Hids _ Hin). lia.
    + apply Forall_app. split.
      * eapply Forall_impl; [|exact Hids]. simpl. intros; lia.
      * constructor; [|constructor]. left. lia.
  - unfold photonFrame in *.
    destruct (nth_error (photons s) i) as [photon|]; [|split; assumption].
    destruct (fst (frame _ _ _ _ _ _ _ _)); simpl in *; [|split; assumption].
    rewrite handlePhotonUpdate_ids. split; assumption.
  - destruct (reapEffect_cases spawn s now g)
      as [(_ & _ & E) | [(_ & _ & E) | (_ & E)]]; rewrite E in *; simpl in *.
    + rewrite spawn_id. split; [repeat constructor; simpl; tauto|].
      constructor; [|constructor]. right. eapply Hclock. reflexivity.
    + split; [apply NoDup_map_filter; exact Hnd|].
      apply Forall_forall. intros i Hi. apply in_map_iff in Hi.
      destruct Hi as (p & <- & Hp). apply filter_In in Hp.
      rewrite Forall_forall in Hids. apply Hids. apply in_map. apply Hp.
    + split; assumption.
Qed.

Lemma run_idsApart evs : forall s,
  (forall now g,
     In (Reap now g) evs ->
     (photonIdCounter (run Math_sin Math_cos threshold spawn s evs)
      <= now)%Z) ->
  idsApart (photonIdCounter (run Math_sin Math_cos threshold spawn s evs)) s ->
  NoDup (map PhotonData.id
           (photons (run Math_sin Math_cos threshold spawn s evs))).
Proof.
  induction evs as [|ev evs IH]; intros s Hclock Hs; simpl in *.
  - apply Hs.
  - apply IH.
    + intros now g Hin. apply (Hclock now g). right. exact Hin.
    + apply dispatch_idsApart.
      * apply run_counter.
      * intros now g ->. apply (Hclock now g). left. reflexivity.
      * exact Hs.
Qed.
End IdFacts.

(** The ids of the live photons are pairwise distinct at the end of every
    session in which the id counter has not reached a clock reading that a
    retirement has used: the counter hands out 0, 1, 2, ... and a replacement
    takes [Date.now()]. *)
Theorem live_ids_distinct :
  forall (Math_sin Math_cos : float -> float) (threshold : float)
         (spawn : Z -> Random -> PhotonData.t) (g0 : Random)
         (evs : list Event),
    (forall now g, PhotonData.id (spawn now g) = now) ->
    (forall now g,
       In (Reap now g) evs ->
       (photonIdCounter (session Math_sin Math_cos threshold spawn g0 evs)
        <= now)%Z) ->
    NoDup (map PhotonData.id
             (photons (session Math_sin Math_cos threshold spawn g0 evs))).
Proof.
  intros Math_sin Math_cos threshold spawn g0 evs Hspawn Hclock.
  unfold session in *.
  apply run_idsApart; [exact Hspawn | exact Hclock |].
  split; simpl.
  - repeat constructor. simpl. tauto.
  - constructor; [|constructor]. left. lia.
Qed.

(** With distinct ids, committing a frame replaces exactly the record of
    the photon that was stepped: the photons before and after it in the
    list stay as they were. *)
Theorem update_replaces_one_record :
  forall (photons : list PhotonData.t) (i : nat)
         (photon updatedPhoton : PhotonData.t),
    NoDup (map PhotonData.id photons) ->
    nth_error photons i = Some photon ->
    PhotonData.id updatedPhoton = PhotonData.id photon ->
    handlePhotonUpdate photons updatedPhoton
    = firstn i photons ++ updatedPhoton :: skipn (S i) photons.
Proof.
  intros photons i photon updatedPhoton.
  apply handlePhotonUpdate_one.
Qed.

Lemma live_ids_distinct_witness :
  NoDup (map PhotonData.id
           (photons
              (session Sample.noTrig Sample.noTrig DISTANCE_THRESHOLD
                 Buffered.spawn Sample.steady
                 (Sample.escape ++ [Reap Sample.clock Sample.steady;
                                    AddPhoton Sample.steady])))).
Proof.
  apply (live_ids_distinct Sample.noTrig Sample.noTrig DISTANCE_THRESHOLD
           Buffered.spawn Sample.steady
           (Sample.escape ++ [Reap Sample.clock Sample.steady;
                              AddPhoton Sample.steady])
           (fun now g => eq_refl)).
  intros now g Hin. simpl in Hin.
  destruct Hin as [H | [H | [H | [H | []]]]]; try discriminate H.
  injection H as <- _. vm_compute. discriminate.
Defined.

Lemma update_replaces_one_record_witness :
  handlePhotonUpdate [Sample.nearBoundary; Sample.cruisingSecond]
    Sample.cruisingSecondMoved
  = firstn 1 [Sample.nearBoundary; Sample.cruisingSecond]
      ++ Sample.cruisingSecondMoved
      :: skipn 2 [Sample.nearBoundary; Sample.cruisingSecond].
Proof.
  apply (update_replaces_one_record
           [Sample.nearBoundary; Sample.cruisingSecond] 1
           Sample.cruisingSecond Sample.cruisingSecondMoved).
  - repeat constructor; simpl; intuition discriminate.
  - reflexivity.
  - reflexivity.
Defined.

(** ** Inside the sphere, outside the sphere *)

Lemma SFleb_lower M E M' E' x :
  (E' < E)%Z ->
  SFleb (S754_finite false M E) x = true ->
  SFleb (S754_finite false M' E') x = true.
Proof.
  intros HE. unfold SFleb, SFcompare.
  destruct x as [s|[|]| |[|] m e]; try discriminate; try reflexivity.
  destruct (Z.compare_spec E e) as [He|He|He]; try discriminate; intros _.
  - replace (E' ?= e)%Z with Lt by (symmetry; apply Z.compare_lt_iff; lia).
    reflexivity.
  - replace (E' ?= e)%Z with Lt by (symmetry; apply Z.compare_lt_iff; lia).
    reflexivity.
Qed.

Lemma beyond_cutoff_beyond_radius d :
  JS.ge d MAX_DISTANCE = true -> JS.ge d SPHERE_RADIUS = true.
Proof.
  unfold JS.ge. rewrite !leb_spec, radius_spec.
  change (Prim2SF MAX_DISTANCE)
    with (S754_finite false 7036874417766400 (-48)).
  apply SFleb_lower. lia.
Qed.

Lemma frame_inside_within Math_sin Math_cos threshold settings isPaused delta
    photon g newPhoton :
  fst (frame Math_sin Math_cos threshold settings isPaused delta photon g)
  = Some newPhoton ->
  PhotonData.isOutside newPhoton = false ->
  JS.ge (PhotonData.distanceFromCenter newPhoton) SPHERE_RADIUS = false.
Proof.
  unfold frame. destruct isPaused; [discriminate|].
  destruct (PhotonData.isOutside photon); simpl.
  - intros [= <-]. discriminate.
  - unfold walkInside.
    destruct (Math_random g) as [coin g1].
    destruct (if JS.lt coin _ then _ else _) as [velocity g2].
    destruct (JS.ge _ SPHERE_RADIUS) eqn:E; simpl; intros [= <-]; simpl.
    + discriminate.
    + intros _. exact E.
Qed.

Section PhaseFacts.
Variables Math_sin Math_cos : float -> float.
Variable threshold : float.
Variable spawn : Z -> Random -> PhotonData.t.
Hypothesis spawn_within :
  forall now g,
    JS.ge (PhotonData.distanceFromCenter (spawn now g)) SPHERE_RADIUS = false.

Lemma dispatch_insideWithin s ev :
  insideWithin s ->
  insideWithin (dispatch Math_sin Math_cos threshold spawn s ev).
Proof.
  unfold insideWithin. intros Hs.
  destruct ev as [g|g|g|i settings isPaused delta g|now g]; simpl.
  - exact Hs.
  - repeat constructor.
  - unfold handleAddPhoton.
    destruct (length (photons s) <? MAX_PHOTONS)%nat; [|exact Hs].
    simpl. apply Forall_app. split; [exact Hs | repeat constructor].
  - unfold photonFrame.
    destruct (nth_error (photons s) i) as [photon|]; [|exact Hs].
    destruct (fst (frame _ _ _ _ _ _ _ _)) as [newPhoton|] eqn:E;
      [|exact Hs].
    simpl. unfold handlePhotonUpdate.
    apply Forall_forall. intros q Hq. apply in_map_iff in Hq.
    destruct Hq as (p & <- & Hp).
    destruct (PhotonData.id p =? PhotonData.id newPhoton)%Z.
    + eapply frame_inside_within. exact E.
    + rewrite Forall_forall in Hs. apply Hs. exact Hp.
  - destruct (reapEffect_cases spawn s now g)
      as [(_ & _ & ->) | [(_ & _ & ->) | (_ & ->)]]; simpl.
    + constructor; [|constructor]. intros _. apply spawn_within.
    + apply Forall_forall. intros p Hp. apply filter_In in Hp.
      rewrite Forall_forall in Hs. apply Hs. apply Hp.
    + exact Hs.
Qed.

Lemma reachable_insideWithin s :
  reachable Math_sin Math_cos threshold spawn s -> insideWithin s.
Proof.
  intros (g0 & evs & ->). unfold session.
  assert (H0 : insideWithin (initialState g0)) by (repeat constructor).
  revert H0. generalize (initialState g0).
  induction evs as [|ev evs IH]; intros s Hs; simpl; [exact Hs|].
  apply IH, dispatch_insideWithin, Hs.
Qed.
End PhaseFacts.

(** In every reachable state a live photon that is still in the inside
    phase is not at or beyond the sphere radius; hence every photon that the
    retirement removes (distance at least [MAX_DISTANCE]) is in the outside
    phase. *)
Theorem retired_photons_are_outside :
  forall (Math_sin Math_cos : float -> float) (threshold : float)
         (spawn : Z -> Random -> PhotonData.t) (s : AppState),
    (forall now g,
       JS.ge (PhotonData.distanceFromCenter (spawn now g)) SPHERE_RADIUS
       = false) ->
    reachable Math_sin Math_cos threshold spawn s ->
    insideWithin s /\
    Forall (fun p => PhotonData.isOutside p = true)
      (removedPhotons (photons s)).
Proof.
  intros Math_sin Math_cos threshold spawn s Hspawn Hs.
  pose proof (reachable_insideWithin Math_sin Math_cos threshold spawn
                Hspawn s Hs) as Hin.
  split; [exact Hin|].
  apply Forall_forall. intros p Hp. apply filter_In in Hp.
  destruct Hp as [Hp Hfar].
  unfold insideWithin in Hin. rewrite Forall_forall in Hin.
  specialize (Hin p Hp).
  apply beyond_cutoff_beyond_radius in Hfar.
  destruct (PhotonData.isOutside p); [reflexivity|].
  rewrite Hin in Hfar by reflexivity. discriminate.
Qed.

Lemma retired_photons_are_outside_witness :
  Forall (fun p => PhotonData.isOutside p = true)
    (removedPhotons
       (photons
          (session Sample.noTrig Sample.noTrig DISTANCE_THRESHOLD
             Buffered.spawn Sample.steady Sample.escape))).
Proof.
  exact (proj2
           (retired_photons_are_outside Sample.noTrig Sample.noTrig
              DISTANCE_THRESHOLD Buffered.spawn _
              (fun now g => eq_refl)
              (ex_intro _ Sample.steady
                 (ex_intro _ Sample.escape eq_refl)))).
Defined.

(** ** The zoom buttons *)

Lemma zoom_stays_on_stops d click :
  In d zoomStops -> In (zoom d click) zoomStops.
Proof.
  unfold zoomStops. intros H. simpl in H.
  repeat (destruct H as [<- | H]; [destruct click; vm_compute; tauto|]).
  contradiction.
Qed.

Lemma zoomStops_bounds d :
  In d zoomStops -> JS.le 5%float d = true /\ JS.le d 15%float = true.
Proof.
  unfold zoomStops. intros H. simpl in H.
  repeat (destruct H as [<- | H]; [split; reflexivity|]).
  contradiction.
Qed.

(** Whatever the sequence of clicks on the two zoom buttons, the camera
    distance is one of 5, 5.5, ..., 15: it starts at 10, moves in steps of
    one half, and stays between 5 and 15. *)
Theorem zoom_stays_in_range :
  forall clicks : list ZoomClick,
    In (cameraDistanceAfter clicks) zoomStops /\
    JS.le 5%float (cameraDistanceAfter clicks) = true /\
    JS.le (cameraDistanceAfter clicks) 15%float = true.
Proof.
  intros clicks.
  assert (H : In (cameraDistanceAfter clicks) zoomStops).
  { unfold cameraDistanceAfter.
    assert (H0 : In initialCameraDistance zoomStops)
      by (vm_compute; tauto).
    revert H0. generalize initialCameraDistance.
    induction clicks as [|c clicks IH]; intros d Hd; simpl; [exact Hd|].
    apply IH, zoom_stays_on_stops, Hd. }
  split; [exact H | apply zoomStops_bounds, H].
Qed.

(** ** The add button *)

(** A click on the add button either pulses the button and leaves the page
    state alone -- exactly when [MAX_PHOTONS] photons are live -- or appends
    exactly one photon made by [createPhoton] and moves the counter on by
    one; the guard of the panel and the guard of the page never disagree. *)
Theorem add_click_pulses_or_adds :
  forall (s : AppState) (g : Random),
    (snd (clickAddPhoton s g) = true /\
     fst (clickAddPhoton s g) = s /\
     (MAX_PHOTONS <= length (photons s))%nat) \/
    (snd (clickAddPhoton s g) = false /\
     (length (photons s) < MAX_PHOTONS)%nat /\
     photons (fst (clickAddPhoton s g))
     = photons s ++ [fst (fst (createPhoton (photonIdCounter s) g))] /\
     trails (fst (clickAddPhoton s g)) = trails s /\
     photonIdCounter (fst (clickAddPhoton s g))
     = (photonIdCounter s + 1)%Z).
Proof.
  intros s g. unfold clickAddPhoton, ControlPanel_handleAddPhoton.
  destruct (MAX_PHOTONS <=? length (photons s))%nat eqn:E.
  - left. apply Nat.leb_le in E. repeat split. exact E.
  - right. apply Nat.leb_gt in E. simpl.
    unfold handleAddPhoton.
    pose proof E as E'. apply Nat.ltb_lt in E'. rewrite E'.
    repeat split. exact E.
Qed.

(** ** More binary64 facts: sums of squares, roots, clamping *)

Lemma SFadd_nonneg x y : nonneg x -> nonneg y -> nonneg (SF64add x y).
Proof.
  destruct x as [[|]|[|]| |[|] mx ex]; try contradiction;
    destruct y as [[|]|[|]| |[|] my ey]; try contradiction;
    intros _ _; try exact I.
  unfold SF64add, SFadd, cond_Zopp.
  destruct (Zpos _ + Zpos _)%Z as [|p|p] eqn:E; try lia.
  apply binary_normalize_pos_nonneg.
Qed.

Lemma SFmul_square_nonneg x : nonneg x -> nonneg (SF64mul x x).
Proof.
  destruct x as [[|]|[|]| |[|] m e]; try contradiction; intros _;
    try exact I.
  unfold SF64mul, SFmul. simpl xorb.
  apply binary_round_aux_nonneg. lia.
Qed.

Lemma SFmul_nonneg_finite x M E :
  nonneg x -> nonneg (SF64mul x (S754_finite false M E)).
Proof.
  destruct x as [[|]|[|]| |[|] m e]; try contradiction; intros _;
    try exact I.
  unfold SF64mul, SFmul. simpl xorb.
  apply binary_round_aux_nonneg. lia.
Qed.

Lemma SFsqrt_nonneg x : nonneg x -> nonneg (SF64sqrt x).
Proof.
  destruct x as [[|]|[|]| |[|] m e]; try contradiction; intros _;
    try exact I.
  unfold SF64sqrt, SFsqrt, SFsqrt_core_binary.
  set (e' := Z.min _ _).
  set (m' := match (e - 2 * e')%Z with
             | Z0 => Zpos m
             | Zpos _ => Z.shiftl (Zpos m) (e - 2 * e')
             | Zneg _ => Z0
             end).
  assert (Hm' : (0 <= m')%Z).
  { unfold m'. destruct (e - 2 * e')%Z; try lia.
    apply Z.shiftl_nonneg. lia. }
  pose proof (Z.sqrtrem_sqrt m') as Hq.
  destruct (Z.sqrtrem m') as [q r]. simpl in Hq.
  apply binary_round_aux_nonneg. rewrite Hq. apply Z.sqrt_nonneg.
Qed.

Lemma byteNumber_nonneg b : nonneg (Prim2SF (byteNumber b)).
Proof.
  unfold byteNumber. rewrite of_uint63_spec.
  pose proof (Uint63.to_Z_bounded (Uint63.of_Z b)) as Hb.
  destruct (Uint63Axioms.to_Z (Uint63.of_Z b)) as [|p|p]; try lia.
  - exact I.
  - apply binary_normalize_pos_nonneg.
Qed.

Lemma nonneg_ge_zero x : nonneg (Prim2SF x) -> JS.le 0%float x = true.
Proof.
  unfold JS.le. rewrite leb_spec, zero_spec.
  destruct (Prim2SF x) as [[|]|[|]| |[|] m e]; try contradiction;
    reflexivity.
Qed.

Lemma ltb_leb x y : (x <? y)%float = true -> (x <=? y)%float = true.
Proof.
  rewrite ltb_spec, leb_spec. unfold SFltb, SFleb.
  destruct (SFcompare _ _) as [[| |]|]; try discriminate. reflexivity.
Qed.

(** Two numbers neither of which is below the other compare equal. *)
Lemma not_ltb_leb x y :
  is_nan x = false -> is_nan y = false ->
  (x <? y)%float = false -> (y <? x)%float = false ->
  (x <=? y)%float = true /\ (y <=? x)%float = true.
Proof.
  intros Hx Hy.
  destruct (lt_ge_nan x y Hy) as [(E & _) | [(_ & E1 & _) | (_ & _ & E)]];
    destruct (lt_ge_nan y x Hx) as [(F & _) | [(_ & F1 & _) | (_ & _ & F)]];
    unfold JS.lt, JS.ge in *; try congruence.
  intros _ _. split; assumption.
Qed.

Lemma leb_refl x : is_nan x = false -> (x <=? x)%float = true.
Proof.
  intros Hx. rewrite leb_spec. unfold SFleb.
  rewrite SFcompare_refl; [reflexivity|].
  intros E. apply is_nan_spec in E. congruence.
Qed.

(** [Math.max(a, b)] is at least [a] when both are numbers. *)
Lemma Math_max_ge_left a b :
  is_nan a = false -> is_nan b = false ->
  JS.le a (JS.Math_max a b) = true.
Proof.
  intros Ha Hb. unfold JS.le, JS.Math_max. rewrite Ha, Hb. simpl.
  destruct (a <? b)%float eqn:Hab; [apply ltb_leb, Hab|].
  destruct (b <? a)%float eqn:Hba; [apply leb_refl, Ha|].
  destruct (is_zero a && get_sign a).
  - apply (not_ltb_leb a b Ha Hb Hab Hba).
  - apply leb_refl, Ha.
Qed.

(** [Math.min(1, x)] lies between 0 and 1 when [x] is +0, positive or
    +Infinity. *)
Lemma Math_min_one_nonneg x :
  nonneg (Prim2SF x) ->
  JS.le 0%float (JS.Math_min 1%float x) = true /\
  JS.le (JS.Math_min 1%float x) 1%float = true.
Proof.
  intros H. pose proof (nonneg_not_nan x H) as Hx.
  unfold JS.Math_min. rewrite Hx.
  change (is_nan 1%float) with false. simpl orb. cbv iota.
  destruct (1 <? x)%float eqn:H1; [split; reflexivity|].
  destruct (x <? 1)%float eqn:H2.
  - split; [apply nonneg_ge_zero, H | apply ltb_leb, H2].
  - change (is_zero 1%float && get_sign 1%float) with false. cbv iota.
    split; [apply nonneg_ge_zero, H|].
    apply (not_ltb_leb 1%float x eq_refl Hx H1 H2).
Qed.

(** ** The audio level *)

Lemma energy_nonneg l : forall sum,
  nonneg (Prim2SF sum) ->
  nonneg
    (Prim2SF
       (fold_left
          (fun sum b =>
             let normalized := (byteNumber b / 255)%float in
             (sum + normalized * normalized)%float)
          l sum)).
Proof.
  induction l as [|b l IH]; intros sum Hsum; simpl; [exact Hsum|].
  apply IH. rewrite add_spec. apply SFadd_nonneg; [exact Hsum|].
  rewrite mul_spec. apply SFmul_square_nonneg.
  rewrite div_spec.
  change (Prim2SF 255%float)
    with (S754_finite false 8972014882652160 (-45)).
  apply SFdiv_nonneg, byteNumber_nonneg.
Qed.

(** Whatever the analyser delivers, the audio level is a number between 0
    and 1, never NaN. *)
Theorem audio_level_in_unit_interval :
  forall dataArray : list Z,
    JS.le 0%float (audioLevel dataArray) = true /\
    JS.le (audioLevel dataArray) 1%float = true.
Proof.
  intros dataArray. unfold audioLevel.
  apply Math_min_one_nonneg.
  rewrite mul_spec.
  change (Prim2SF 2%float) with (S754_finite false 4503599627370496 (-51)).
  apply SFmul_nonneg_finite.
  rewrite sqrt_spec. apply SFsqrt_nonneg.
  rewrite div_spec.
  change (Prim2SF 24%float) with (S754_finite false 6755399441055744 (-48)).
  apply SFdiv_nonneg, energy_nonneg. exact I.
Qed.

Lemma Forall_firstn {A} (P : A -> Prop) n : forall l,
  Forall P l -> Forall P (firstn n l).
Proof.
  induction n as [|n IH]; intros l H; simpl; [constructor|].
  destruct H; constructor; auto.
Qed.

Lemma Forall_skipn {A} (P : A -> Prop) n : forall l,
  Forall P l -> Forall P (skipn n l).
Proof.
  induction n as [|n IH]; intros l H; simpl; [exact H|].
  destruct H; [constructor | auto].
Qed.

Lemma energy_of_silence l :
  Forall (fun b => b = 0%Z) l ->
  fold_left
    (fun sum b =>
       (sum + byteNumber b / 255 * (byteNumber b / 255))%float)
    l 0%float = 0%float.
Proof.
  induction 1 as [|b l -> _ IH]; simpl; [reflexivity|].
  exact IH.
Qed.

(** Only bins 8 to 31 count: when they are all 0 -- in particular when the
    array has no more than 8 bins -- the level is 0, whatever the other bins
    hold. *)
Theorem audio_level_of_silent_mid_band :
  forall dataArray : list Z,
    Forall (fun b => b = 0%Z) (skipn 8 (firstn 32 dataArray)) ->
    audioLevel dataArray = 0%float.
Proof.
  intros dataArray H. unfold audioLevel.
  assert (E : firstn (Nat.min 32 (length dataArray)) dataArray
              = firstn 32 dataArray).
  { destruct (Nat.le_ge_cases 32 (length dataArray)) as [Hl | Hl].
    - rewrite Nat.min_l by exact Hl. reflexivity.
    - rewrite Nat.min_r by exact Hl.
      rewrite firstn_all. symmetry. apply firstn_all2. exact Hl. }
  cbv zeta. rewrite E, (energy_of_silence _ H). reflexivity.
Qed.

Lemma audio_level_of_silent_mid_band_witness :
  audioLevel (repeat 255%Z 8 ++ repeat 0%Z 24 ++ repeat 255%Z 96) = 0%float.
Proof.
  apply (audio_level_of_silent_mid_band
           (repeat 255%Z 8 ++ repeat 0%Z 24 ++ repeat 255%Z 96)).
  simpl. repeat constructor.
Defined.

(** ** Drawing the paths *)

Lemma segments_length pts : length (segments pts) = (length pts - 1)%nat.
Proof.
  induction pts as [|a [|b l] IH]; simpl in *; try reflexivity.
  rewrite IH. lia.
Qed.

Lemma ensureTwoPoints_length arr :
  length (Buffered.ensureTwoPoints arr) = Nat.max (length arr) 2.
Proof.
  destruct arr as [|a [|b l]]; simpl; try reflexivity. lia.
Qed.

Lemma firstn_min_length {A} (l : list A) n :
  firstn (Nat.min (length l) n) l = firstn n l.
Proof.
  destruct (Nat.le_ge_cases (length l) n) as [H | H].
  - rewrite Nat.min_l by exact H.
    rewrite firstn_all. symmetry. apply firstn_all2. exact H.
  - rewrite Nat.min_r by exact H. reflexivity.
Qed.

(** The persistent buffer holds at least one and at most
    [MAX_TRAIL_SEGMENTS] = 2000 segments: an empty or one-point path is
    padded to one degenerate segment, and of a path with more than 2001
    points only the first 2000 segments -- the oldest -- are written. *)
Theorem buffer_holds_oldest_segments :
  forall (Math_exp : float -> float) (path : list Vector3.t),
    length (Buffered.Photon_buffer Math_exp path)
    = Nat.min (Nat.max (length path) 2 - 1) 2000 /\
    (1 <= length (Buffered.Photon_buffer Math_exp path) <= 2000)%nat /\
    map (fun line => (fst (fst line), snd (fst line)))
      (Buffered.Photon_buffer Math_exp path)
    = firstn 2000 (segments (Buffered.ensureTwoPoints path)) /\
    Buffered.TrailRenderer_buffer Math_exp path
    = Buffered.Photon_buffer Math_exp path.
Proof.
  intros Math_exp path.
  assert (Hlen : length (Buffered.Photon_buffer Math_exp path)
                 = Nat.min (Nat.max (length path) 2 - 1) 2000).
  { unfold Buffered.Photon_buffer, MAX_TRAIL_SEGMENTS.
    rewrite length_map, length_firstn, segments_length,
      ensureTwoPoints_length. lia. }
  split; [exact Hlen|]. split; [lia|]. split; [|reflexivity].
  unfold Buffered.Photon_buffer, MAX_TRAIL_SEGMENTS. cbv zeta.
  rewrite map_map.
  rewrite map_ext with (g := fun se => se) by (intros [a b]; reflexivity).
  rewrite map_id, <- segments_length. apply firstn_min_length.
Qed.

Lemma Photon_pathLines_length Math_exp path :
  length (Immediate.Photon_pathLines Math_exp path) = (length path - 1)%nat.
Proof.
  unfold Immediate.Photon_pathLines.
  destruct path as [|a [|b l]]; try reflexivity.
  cbn [length Nat.ltb Nat.leb].
  rewrite length_map, segments_length. reflexivity.
Qed.

Lemma componentStep_keepsMemo Math_sin Math_cos Math_exp arrays photon memo
    c st :
  memo_path memo = o_path photon ->
  memo_id memo = o_id photon ->
  keepsMemo arrays photon memo c ->
  keepsMemo arrays photon memo
    (componentStep Math_sin Math_cos Math_exp c st).
Proof.
  intros Hmp Hmi (Hm & Hp & Hi & added & Ha).
  destruct st as [t|]; simpl.
  - destruct (fst (Immediate.useFrame _ _ _ _ _ _ _)) as [newPhoton|] eqn:E;
      [|repeat split; eauto].
    unfold Immediate.useFrame in E.
    pose proof (frame_keeps_id _ _ _ _ _ _ _ _ _ E) as Hid.
    destruct (tick_isPaused t) eqn:Hpaused;
      [unfold frame in E; discriminate|].
    destruct (frame_path_added _ _ _ _ _ _ _ _ E) as (more & Hpath & _).
    simpl in Hid, Hpath.
    split; [exact Hm|]. split; [exact Hp|].
    split; [simpl; rewrite Hid; exact Hi|].
    exists (added ++ more). simpl. unfold store.
    rewrite Hp, Nat.eqb_refl, Hpath, Hp, Ha. symmetry. apply app_assoc.
  - split; [|repeat split; eauto].
    simpl. rewrite Hm, Hmp, Hmi, Hp, Hi, Nat.eqb_refl, Z.eqb_refl.
    reflexivity.
Qed.

Lemma componentRun_keepsMemo Math_sin Math_cos Math_exp arrays photon memo
    steps :
  memo_path memo = o_path photon ->
  memo_id memo = o_id photon ->
  forall c,
    keepsMemo arrays photon memo c ->
    keepsMemo arrays photon memo
      (componentRun Math_sin Math_cos Math_exp c steps).
Proof.
  intros Hmp Hmi. unfold componentRun.
  induction steps as [|st steps IH]; intros c Hc; simpl; [exact Hc|].
  apply IH. apply componentStep_keepsMemo; assumption.
Qed.

(** Where one line is drawn per segment, the lines of a live photon are
    those of the path it had when its component mounted, one per pair of
    consecutive points of that path, however many frames and renders
    follow: the frames push into the same array and keep the id, so the
    dependencies [photon.path, photon.id] of the memo never change, while
    the array only grows.  A replacement photon, mounted with a one-point
    path, shows no line for as long as it lives. *)
Theorem live_photon_keeps_mount_time_lines :
  forall (Math_sin Math_cos Math_exp : float -> float) (arrays : Arrays)
         (photon : PhotonObject) (steps : list ComponentStep),
    let c :=
      componentRun Math_sin Math_cos Math_exp
        (mountPhoton Math_exp arrays photon) steps in
    memo_lines (c_memo c)
    = Immediate.Photon_pathLines Math_exp (arrays (o_path photon)) /\
    length (memo_lines (c_memo c))
    = (length (arrays (o_path photon)) - 1)%nat /\
    o_path (c_photon c) = o_path photon /\
    o_id (c_photon c) = o_id photon /\
    (exists added,
       PhotonData.path (deref (c_arrays c) (c_photon c))
       = arrays (o_path photon) ++ added) /\
    (forall now g,
       deref arrays photon = Immediate.spawn now g ->
       memo_lines (c_memo c) = []).
Proof.
  intros Math_sin Math_cos Math_exp arrays photon steps c.
  destruct (componentRun_keepsMemo Math_sin Math_cos Math_exp arrays photon
              (computePathLines Math_exp arrays photon) steps
              eq_refl eq_refl (mountPhoton Math_exp arrays photon))
    as (Hm & Hp & Hi & added & Ha).
  { repeat split. exists []. symmetry. apply app_nil_r. }
  fold c in Hm, Hp, Hi, Ha.
  split; [rewrite Hm; reflexivity|].
  split; [rewrite Hm; apply Photon_pathLines_length|].
  split; [exact Hp|]. split; [exact Hi|].
  split; [exists added; simpl; rewrite Hp; exact Ha|].
  intros now g Hspawn. rewrite Hm. simpl.
  apply (f_equal PhotonData.path) in Hspawn. simpl in Hspawn.
  rewrite Hspawn. reflexivity.
Qed.

Lemma live_photon_keeps_mount_time_lines_witness :
  length
    (memo_lines
       (c_memo
          (componentRun Sample.noTrig Sample.noTrig Sample.expSeries
             (mountPhoton Sample.expSeries Sample.walkerArrays Sample.walker)
             Sample.twoFrames))) = 1%nat /\
  PhotonData.path
    (deref
       (c_arrays
          (componentRun Sample.noTrig Sample.noTrig Sample.expSeries
             (mountPhoton Sample.expSeries Sample.walkerArrays Sample.walker)
             Sample.twoFrames))
       Sample.walker)
  = [Vector3.origin; Vector3.mk 0.002 0 0; Vector3.mk 0.2 0 0;
     Vector3.mk 0.4 0 0].
Proof.
  exact (conj
           (proj1 (proj2
              (live_photon_keeps_mount_time_lines Sample.noTrig Sample.noTrig
                 Sample.expSeries Sample.walkerArrays Sample.walker
                 Sample.twoFrames)))
           eq_refl).
Defined.

(** The vertex colour of the buffered revision is the colour of the other
    revision inside the sphere, and that colour multiplied by its opacity
    outside: the fade moved from the material into the colour. *)
Theorem buffered_colour_is_colour_times_opacity :
  forall (Math_exp : float -> float) (start : Vector3.t),
    Buffered.Photon_segmentColor Math_exp start
    = if JS.le (Vector3.length start) SPHERE_RADIUS
      then fst (Immediate.Photon_segmentStyle Math_exp start)
      else Color.multiplyScalar
             (fst (Immediate.Photon_segmentStyle Math_exp start))
             (snd (Immediate.Photon_segmentStyle Math_exp start)).
Proof.
  intros Math_exp start.
  unfold Buffered.Photon_segmentColor, Immediate.Photon_segmentStyle.
  destruct (JS.le (Vector3.length start) SPHERE_RADIUS); reflexivity.
Qed.

(** The opacity of a segment is never below 0.1, as long as [Math.exp]
    answers with a number at the fade distance of the segment. *)
Theorem opacity_has_floor :
  forall (Math_exp : float -> float) (start : Vector3.t),
    is_nan
      (Math_exp
         (- JS.Math_max 0
              ((Vector3.length start - SPHERE_RADIUS) / 10))%float)
    = false ->
    JS.le 0.1%float (snd (Immediate.Photon_segmentStyle Math_exp start))
    = true /\
    JS.le 0.1%float
      (snd (Immediate.TrailRenderer_segmentStyle Math_exp start)) = true.
Proof.
  intros Math_exp start Hexp.
  assert (H : JS.le 0.1%float
                (snd (Immediate.Photon_segmentStyle Math_exp start)) = true).
  { unfold Immediate.Photon_segmentStyle.
    destruct (JS.le (Vector3.length start) SPHERE_RADIUS);
      [reflexivity|].
    cbv zeta. simpl snd.
    apply Math_max_ge_left; [reflexivity | exact Hexp]. }
  split; exact H.
Qed.

Lemma opacity_has_floor_witness :
  JS.le 0.1%float
    (snd (Immediate.Photon_segmentStyle Sample.expSeries
            (Vector3.mk 30 0 0))) = true.
Proof.
  exact (proj1 (opacity_has_floor Sample.expSeries (Vector3.mk 30 0 0)
                  eq_refl)).
Defined.

(** ** Flight outside the sphere *)

Lemma tick_outside_velocity Math_sin Math_cos threshold photon t :
  PhotonData.isOutside photon = true ->
  PhotonData.velocity (tick Math_sin Math_cos threshold photon t)
  = PhotonData.velocity photon.
Proof.
  intros Hout. unfold tick, frame. rewrite Hout.
  destruct (tick_isPaused t); reflexivity.
Qed.

(** Once outside, a photon keeps its velocity for the rest of its life:
    neither the settings nor the draws nor the frame times of later ticks
    change its heading or its speed per unit of frame time. *)
Theorem outside_velocity_is_constant :
  forall (Math_sin Math_cos : float -> float) (threshold : float)
         (ticks : list Tick) (photon : PhotonData.t),
    PhotonData.isOutside photon = true ->
    PhotonData.velocity (life Math_sin Math_cos threshold photon ticks)
    = PhotonData.velocity photon.
Proof.
  intros Math_sin Math_cos threshold ticks. unfold life.
  induction ticks as [|t ticks IH]; intros photon Hout; simpl;
    [reflexivity|].
  rewrite IH by (apply tick_outside_stays; exact Hout).
  apply tick_outside_velocity. exact Hout.
Qed.

Lemma outside_velocity_is_constant_witness :
  PhotonData.velocity
    (life Sample.noTrig Sample.noTrig DISTANCE_THRESHOLD Sample.cruising
       [mkTick Sample.unitSpeed false 0.025 Sample.steady;
        mkTick DEFAULT_SETTINGS false 0.5 Sample.steady])
  = PhotonData.velocity Sample.cruising.
Proof.
  exact (outside_velocity_is_constant Sample.noTrig Sample.noTrig
           DISTANCE_THRESHOLD
           [mkTick Sample.unitSpeed false 0.025 Sample.steady;
            mkTick DEFAULT_SETTINGS false 0.5 Sample.steady]
           Sample.cruising eq_refl).
Defined.

(** ** What a frame leaves alone, and what a crossing sets *)

(** Committing the frame of any photon neither adds nor removes a photon
    nor a trail: the ids of the live photons, in order, the trails and the
    id counter are as before. *)
Theorem frame_keeps_population :
  forall (Math_sin Math_cos : float -> float) (threshold : float)
         (s : AppState) (i : nat) (settings : Settings) (isPaused : bool)
         (delta : float) (g : Random),
    map PhotonData.id
      (photons (photonFrame Math_sin Math_cos threshold s i settings
                  isPaused delta g))
    = map PhotonData.id (photons s) /\
    trails (photonFrame Math_sin Math_cos threshold s i settings isPaused
              delta g) = trails s /\
    photonIdCounter (photonFrame Math_sin Math_cos threshold s i settings
                       isPaused delta g) = photonIdCounter s.
Proof.
  intros Math_sin Math_cos threshold s i settings isPaused delta g.
  unfold photonFrame.
  destruct (nth_error (photons s) i) as [photon|]; [|repeat split].
  destruct (fst (frame _ _ _ _ _ _ _ _)) as [newPhoton|]; [|repeat split].
  simpl. split; [apply handlePhotonUpdate_ids | split; reflexivity].
Qed.

(** A frame of a photon in the inside phase, written out.  The coin and
    the two angles are the next three draws of the generator; the heading is
    a fresh direction of length [stepDistance] when the coin is below 0.3 and
    the old velocity otherwise; the moved position is the old position plus
    the heading times [photonSpeed * delta * 2].  The photon leaves the
    inside phase exactly when the moved position is at least 3.5 from the
    centre.  The reported [distanceFromCenter] is in both cases the length of
    the moved position.  When the photon leaves, the reported position is
    the moved position scaled to length 3.5 by [normalize] and
    [multiplyScalar], and the reported velocity is that position normalized
    times 0.5, whatever the heading was; when it stays, position and
    velocity are the moved position and the heading. *)
Theorem crossing_frame :
  forall (Math_sin Math_cos : float -> float) (threshold : float)
         (settings : Settings) (delta : float) (photon : PhotonData.t)
         (g : Random) (newPhoton : PhotonData.t),
    fst (frame Math_sin Math_cos threshold settings false delta photon g)
    = Some newPhoton ->
    PhotonData.isOutside photon = false ->
    let speed := (photonSpeed settings * delta * 2)%float in
    let coin := draws g (drawn g) in
    let theta := (draws g (S (drawn g)) * JS.Math_PI * 2)%float in
    let phi := (draws g (S (S (drawn g))) * JS.Math_PI)%float in
    let heading :=
      if (coin <? 0.3)%float then
        Vector3.multiplyScalar
          (Vector3.mk (Math_sin phi * Math_cos theta)%float
                      (Math_sin phi * Math_sin theta)%float
                      (Math_cos phi))
          (stepDistance settings)
      else PhotonData.velocity photon in
    let moved :=
      Vector3.add (PhotonData.position photon)
        (Vector3.multiplyScalar heading speed) in
    PhotonData.isOutside newPhoton = (3.5 <=? Vector3.length moved)%float /\
    PhotonData.distanceFromCenter newPhoton = Vector3.length moved /\
    (PhotonData.isOutside newPhoton = true ->
     PhotonData.position newPhoton
     = Vector3.multiplyScalar (Vector3.normalize moved) 3.5 /\
     PhotonData.velocity newPhoton
     = Vector3.multiplyScalar
         (Vector3.normalize (PhotonData.position newPhoton)) 0.5) /\
    (PhotonData.isOutside newPhoton = false ->
     PhotonData.position newPhoton = moved /\
     PhotonData.velocity newPhoton = heading).
Proof.
  intros Math_sin Math_cos threshold settings delta photon g newPhoton.
  unfold frame. intros E Hin. rewrite Hin in E. cbn [negb] in E.
  pose proof (walkInside_eq Math_sin Math_cos settings
                (photonSpeed settings * delta * 2)%float photon g) as H.
  cbv zeta in H. cbv zeta.
  destruct (walkInside _ _ _ _ _ _) as [m g'].
  cbn [fst] in E, H. injection E as <-. subst m.
  change SPHERE_RADIUS with 3.5%float.
  match goal with
  | |- context [(3.5 <=? ?d)%float] => destruct (3.5 <=? d)%float
  end; cbn [PhotonData.isOutside PhotonData.distanceFromCenter
              PhotonData.position PhotonData.velocity
              m_isOutside m_distance m_position m_velocity];
    (split; [reflexivity|]); (split; [reflexivity|]);
    split; intros Hf; first [discriminate | split; reflexivity].
Qed.

Lemma crossing_frame_witness :
  3.6%float = Vector3.length (Vector3.mk 3.6 0 0) /\
  Vector3.mk 3.5 0 0
  = Vector3.multiplyScalar (Vector3.normalize (Vector3.mk 3.6 0 0)) 3.5 /\
  Vector3.mk 0.5 0 0
  = Vector3.multiplyScalar (Vector3.normalize (Vector3.mk 3.5 0 0)) 0.5.
Proof.
  exact (let H :=
           crossing_frame Sample.noTrig Sample.noTrig DISTANCE_THRESHOLD
             Sample.unitSpeed 0.5%float Sample.nearBoundary Sample.steady
             (PhotonData.mk 0 (Vector3.mk 3.5 0 0) (Vector3.mk 0.5 0 0)
                [Vector3.origin; Vector3.mk 3.4 0 0; Vector3.mk 3.5 0 0]
                true 3.6%float)
             eq_refl eq_refl in
         conj (proj1 (proj2 H)) (proj1 (proj2 (proj2 H)) eq_refl)).
Defined.
